(** * lottery_hardhat: the deployment scripts and the contract tests

    The repository holds three kinds of code:
    - [verify], the helper that submits a deployed contract to the block
      explorer ([Module Verify]);
    - [deploy/99-update-front-end.js], the script that republishes the
      contract's address and interface to the front end
      ([Module FrontEnd]);
    - the unit and staging tests of the Raffle contract
      ([Module Raffle], [Module RaffleTests]).

    Every script is an [async] function.  It is embedded as a function from
    the part of the world it touches (the console, the file system, the
    chain) to a completion and the world it leaves behind: a completion is
    either a normal return or a throw, which for an [async] function is the
    rejection of the promise it returns. *)

From stdpp Require Import gmap strings list fin_maps.
From Stdlib Require Import ZArith Ascii DecimalString DecimalPos DecimalN.

Local Open Scope string_scope.
Local Open Scope list_scope.

(** ** Completions and the script monad *)

Module Js.

Inductive completion (E A : Type) : Type :=
| Return (a : A)
| Throw (e : E).

Arguments Return {E A} a.
Arguments Throw {E A} e.

(** A computation over a world [W] that may throw an [E]. *)
Definition js (W E A : Type) : Type := W -> completion E A * W.

Definition ret {W E A} (a : A) : js W E A := fun w => (Return a, w).

Definition throw {W E A} (e : E) : js W E A := fun w => (Throw e, w).

Definition bind {W E A B} (m : js W E A) (k : A -> js W E B) : js W E B :=
  fun w =>
    match m w with
    | (Return a, w') => k a w'
    | (Throw e, w') => (Throw e, w')
    end.

(** [try { body } catch (e) { handler e }]: what the body did to the world
    before it threw stays done. *)
Definition try_catch {W E A} (body : js W E A) (handler : E -> js W E A)
  : js W E A :=
  fun w =>
    match body w with
    | (Return a, w') => (Return a, w')
    | (Throw e, w') => handler e w'
    end.

End Js.

#[global] Instance js_ret {W E} : MRet (Js.js W E) := @Js.ret W E.
#[global] Instance js_bind {W E} : MBind (Js.js W E) :=
  fun A B k m => Js.bind m k.

(** ** JavaScript strings *)

Module JsString.

(** [String.prototype.toLowerCase] on one character: the letters [A]-[Z]
    (codes 65 to 90) move to [a]-[z]; no other character of the ASCII range
    changes.  A message is taken as a string of 8-bit characters, and a
    character above the ASCII range is left as it is. *)
Definition lower_char (c : ascii) : ascii :=
  let n := N_of_ascii c in
  if (65 <=? n)%N && (n <=? 90)%N then ascii_of_N (n + 32) else c.

Definition upper_char (c : ascii) : ascii :=
  let n := N_of_ascii c in
  if (97 <=? n)%N && (n <=? 122)%N then ascii_of_N (n - 32) else c.

Fixpoint toLowerCase (s : string) : string :=
  match s with
  | EmptyString => EmptyString
  | String c r => String (lower_char c) (toLowerCase r)
  end.

(** [s.includes(pat)]: [pat] occurs in [s] at some position. *)
Fixpoint includes (s pat : string) : bool :=
  String.prefix pat s
  || match s with
     | EmptyString => false
     | String _ r => includes r pat
     end.

(** [s] is [pat] up to the case of its letters: position by position the
    character of [s] is that of [pat], its upper-case or its lower-case
    form. *)
Fixpoint casing_of (pat s : string) : bool :=
  match pat, s with
  | EmptyString, EmptyString => true
  | String p pat', String c s' =>
      (Ascii.eqb c p || Ascii.eqb c (upper_char p) || Ascii.eqb c (lower_char p))
      && casing_of pat' s'
  | _, _ => false
  end.

End JsString.

(** ** The verification helper *)

Module Verify.
Import Js JsString.

(** An error object: a value whose [message] is a string. *)
Record JsError : Type := { message : string }.

(** What a failed task throws.  JavaScript lets any value be thrown or be
    the reason of a rejected promise: an error object, or any other value
    ([undefined], a string, an object without a string [message]), here
    with the text that shows it. *)
Inductive thrown : Type :=
| an_error (e : JsError)
| another_value (shown : string).

Inductive console_entry : Type :=
| console_log (line : string)
| console_error (e : JsError).

(** The console: what has been printed so far, oldest first. *)
Definition console : Type := list console_entry.

Definition log (line : string) : js console thrown unit :=
  fun out => (Return tt, out ++ [console_log line]).

Definition error (e : JsError) : js console thrown unit :=
  fun out => (Return tt, out ++ [console_error e]).

(** The [TypeError] of [e.message.toLowerCase()] when [e.message] is not a
    string; one text stands for those of the several cases. *)
Definition TypeError_toLowerCase : JsError :=
  {| message := "Cannot read properties of undefined (reading 'toLowerCase')" |}.

Section WithTask.

(** The constructor arguments are values of the deployment; the helper only
    passes them on. *)
Context {value : Type}.

Record task_arguments : Type :=
  { address : string; constructorArguments : list value }.

(** Hardhat's [run(name, arguments)]: the task runs outside the helper; it
    may print, and it either returns or throws. *)
Variable run : string -> task_arguments -> js console thrown unit.

Definition already_verified (e : JsError) : bool :=
  includes (toLowerCase (message e)) "already verified".

(** The [catch] block reads [e.message.toLowerCase()] first: on a value
    without a string [message] that expression throws, out of the block
    and out of [verify]. *)
Definition verify (contractAdress : string) (args : list value)
  : js console thrown unit :=
  log "verifying contract" ;;
  try_catch
    (run "verify:verify"
         {| address := contractAdress; constructorArguments := args |})
    (fun e =>
       match e with
       | an_error err =>
           if already_verified err
           then log "contract already verified"
           else error err
       | another_value _ => throw (an_error TypeError_toLowerCase)
       end).

End WithTask.

(** A task that fails with an error of a given message, a task that rejects
    with a bare string, and the deployment the samples verify. *)
Definition failing_task (msg : string)
  : string -> @task_arguments N -> js console thrown unit :=
  fun _ _ out => (Throw (an_error {| message := msg |}), out).

Definition rejecting_task (reason : string)
  : string -> @task_arguments N -> js console thrown unit :=
  fun _ _ out => (Throw (another_value reason), out).

Definition sample_address : string :=
  "0x5FbDB2315678afecb367f032d93F642f64180aa3".

End Verify.

(** ** deploy/99-update-front-end.js *)

Module FrontEnd.
Import Js.

(** The parsed address registry, [currentAddresses]: an object from chain-id
    keys to arrays of address strings.  The order of the keys in the text of
    the file is not part of the registry. *)
Abbreviation registry := (gmap string (list string)).

(** The two files of the front-end project, with the names the script gives
    their paths. *)
Definition FRONT_END_ADDRESSES_FILE : string :=
  "../lottery-nextjs/constants/contractAddresses.json".
Definition FRONT_END_ABI_FILE : string :=
  "../lottery-nextjs/constants/abi.json".

(** The disk: the text of each file that exists, and the paths written so
    far, oldest first (a write that stores the text a file already has is
    still a write). *)
Record disk : Type :=
  { files : gmap string string;
    written : list string }.

Inductive error : Type :=
| DeploymentNotFound (name : string)
| ENOENT (path : string)
| SyntaxError (text : string)
| TypeError (what : string).

(** [fs.readFileSync(path, "utf8")] *)
Definition readFileSync (path : string) : js disk error string :=
  fun d =>
    match files d !! path with
    | Some text => (Return text, d)
    | None => (Throw (ENOENT path), d)
    end.

(** [fs.writeFileSync(path, text)]: creates the file or replaces its text.
    The directory of the path is taken to exist, as it does whenever a file
    of that directory has just been read; a write into a missing directory,
    which throws, is not modelled, and what is stated of a write that no
    read precedes assumes a file of the directory. *)
Definition writeFileSync (path text : string) : js disk error unit :=
  fun d =>
    (Return tt,
     {| files := <[path := text]> (files d);
        written := written d ++ [path] |}).

(** A deployed contract as the script sees it: [raffle.address], and the
    text [raffle.interface.format(ethers.utils.FormatTypes.json)]. *)
Record contract : Type :=
  { address : string;
    interface_format_json : string }.

(** The Hardhat runtime the script runs in: the deployments
    [ethers.getContract] finds, [network.config.chainId] (a network may be
    configured without one) and [process.env.UPDATE_FRONT_END]. *)
Record runtime : Type :=
  { deployments : string -> option contract;
    network_config_chainId : option N;
    env_UPDATE_FRONT_END : option string }.

Definition getContract (hre : runtime) (name : string)
  : js disk error contract :=
  match deployments hre name with
  | Some c => ret c
  | None => throw (DeploymentNotFound name)
  end.

(** [n.toString()] of a chain id, an integer far below the size at which
    JavaScript switches to exponent notation: its decimal digits. *)
Definition Number_toString (n : N) : string :=
  NilZero.string_of_uint (N.to_uint n).

(** [network.config.chainId.toString()] *)
Definition chainId_toString (hre : runtime) : js disk error string :=
  match network_config_chainId hre with
  | Some n => ret (Number_toString n)
  | None => throw (TypeError "Cannot read properties of undefined")
  end.

(** [array.includes(x)] on an array of strings. *)
Definition Array_includes (l : list string) (x : string) : bool :=
  existsb (String.eqb x) l.

(** Lines 18 to 24: the change made to the parsed object.  A chain id is
    rendered in decimal digits, never a name that an object inherits, so
    [chainId in currentAddresses] is the lookup of an own key. *)
Definition record_address (chainId raffle_address : string)
    (currentAddresses : registry) : registry :=
  match currentAddresses !! chainId with
  | Some known =>
      if negb (Array_includes known raffle_address)
      then <[chainId := known ++ [raffle_address]]> currentAddresses
      else currentAddresses
  | None => <[chainId := [raffle_address]]> currentAddresses
  end.

(** JavaScript's truthiness of an environment variable: unset and the empty
    string are false, every other string is true. *)
Definition truthy (v : option string) : bool :=
  match v with
  | None | Some EmptyString => false
  | Some _ => true
  end.

(** A call of an [async] function whose promise is dropped: a rejection
    reaches nobody.  Both updates wait for [ethers.getContract] first and
    touch the disk only afterwards, when the exported function has already
    returned, and only if the runtime lets them continue.  The embedding
    follows the run in which both continue, in the order in which they were
    started; what is stated of the exported function below holds as well
    of the run in which they never touch the disk. *)
Definition not_awaited {A} (m : js disk error A) : js disk error unit :=
  fun d => (Return tt, snd (m d)).

Section WithJSON.

(** [JSON.parse] on the text of the registry file and [JSON.stringify] on a
    registry, as the platform provides them.  The file is the registry's: a
    text is read as a registry or rejected with a [SyntaxError] ([None]);
    what the script would do with JSON of another shape is left out. *)
Variable JSON_parse : string -> option registry.
Variable JSON_stringify : registry -> string.

Definition parse (text : string) : js disk error registry :=
  match JSON_parse text with
  | Some r => ret r
  | None => throw (SyntaxError text)
  end.

Definition updateContractAddresses (hre : runtime) : js disk error unit :=
  raffle ← getContract hre "Raffle";
  text ← readFileSync FRONT_END_ADDRESSES_FILE;
  currentAddresses ← parse text;
  chainId ← chainId_toString hre;
  writeFileSync FRONT_END_ADDRESSES_FILE
    (JSON_stringify (record_address chainId (address raffle) currentAddresses)).

Definition updateAbi (hre : runtime) : js disk error unit :=
  raffle ← getContract hre "Raffle";
  writeFileSync FRONT_END_ABI_FILE (interface_format_json raffle).

(** The exported deploy function. *)
Definition module_exports (hre : runtime) : js disk error unit :=
  if truthy (env_UPDATE_FRONT_END hre)
  then not_awaited (updateContractAddresses hre) ;;
       not_awaited (updateAbi hre)
  else ret tt.

(** The registry a disk holds, when its file exists and parses. *)
Definition registry_on (d : disk) : option registry :=
  text ← files d !! FRONT_END_ADDRESSES_FILE; JSON_parse text.

End WithJSON.

(** A JSON printer for registries whose keys and addresses need no escape
    (it lists the keys in the order of the map), and the reader that
    recognises the texts of a given list of registries; used to run the
    script on sample disks. *)
Definition quoted (s : string) : string :=
  String (ascii_of_N 34) s +:+ String (ascii_of_N 34) EmptyString.

Definition print_entry (kv : string * list string) : string :=
  quoted kv.1 +:+ ":[" +:+ String.concat "," (quoted <$> kv.2) +:+ "]".

Definition print_registry (r : registry) : string :=
  "{" +:+ String.concat "," (print_entry <$> map_to_list r) +:+ "}".

Definition read_among (known : list registry) (text : string)
  : option registry :=
  find (fun r => String.eqb (print_registry r) text) known.

(** How often an address is listed. *)
Definition occurrences (a : string) (l : list string) : nat :=
  length (List.filter (String.eqb a) l).

(** No chain id lists an address twice. *)
Definition no_duplicates (r : registry) : Prop :=
  forall (k : string) (l : list string), r !! k = Some l -> NoDup l.

(** How often the registry on the disk lists an address under a chain id
    ([None] when there is no registry to read or no such chain id). *)
Definition listed (JSON_parse : string -> option registry) (d : disk)
    (chainId a : string) : option nat :=
  r ← registry_on JSON_parse d;
  l ← r !! chainId;
  Some (occurrences a l).

(** Sample runs: a local deployment on chain 31337, and disks that hold a
    given registry. *)
Definition sample_raffle : contract :=
  {| address := "0x5FbDB2315678afecb367f032d93F642f64180aa3";
     interface_format_json := "[]" |}.

Definition sample_runtime : runtime :=
  {| deployments := fun name =>
       if String.eqb name "Raffle" then Some sample_raffle else None;
     network_config_chainId := Some 31337%N;
     env_UPDATE_FRONT_END := Some "true" |}.

Definition on_goerli : registry :=
  {[ "5" := ["0x9fE46736679d2D9a65F0992F2272dE9f3c7fa6e0"] ]}.

Definition on_both : registry :=
  <[ "31337" := [address sample_raffle] ]> on_goerli.

Definition older_local : registry :=
  {[ "31337" := ["0xe7f1725E7734CE288F8367e1Bb143E90bb3F0512"] ]}.

Definition two_local : registry :=
  {[ "31337" := ["0xe7f1725E7734CE288F8367e1Bb143E90bb3F0512";
                 address sample_raffle] ]}.

Definition doubled : registry :=
  {[ "31337" := [address sample_raffle; address sample_raffle] ]}.

Definition sample_parse : string -> option registry :=
  read_among [on_goerli; on_both; older_local; two_local; doubled].

Definition disk_with (r : registry) : disk :=
  {| files := {[ FRONT_END_ADDRESSES_FILE := print_registry r ]};
     written := [] |}.

Definition empty_disk : disk := {| files := ∅; written := [] |}.

Definition garbled_disk : disk :=
  {| files := {[ FRONT_END_ADDRESSES_FILE := "{" ]}; written := [] |}.

Definition sample_update : js disk error unit :=
  updateContractAddresses sample_parse print_registry sample_runtime.

(** The same runtime with another value of [process.env.UPDATE_FRONT_END],
    and runtimes that lack the deployment or the chain id. *)
Definition with_flag (v : option string) (hre : runtime) : runtime :=
  {| deployments := deployments hre;
     network_config_chainId := network_config_chainId hre;
     env_UPDATE_FRONT_END := v |}.

Definition nothing_deployed : runtime :=
  {| deployments := fun _ => None;
     network_config_chainId := Some 31337%N;
     env_UPDATE_FRONT_END := Some "true" |}.

Definition no_chain_id : runtime :=
  {| deployments := deployments sample_runtime;
     network_config_chainId := None;
     env_UPDATE_FRONT_END := Some "true" |}.

(** A disk on which both files exist, the interface file with an older
    text. *)
Definition stale_disk : disk :=
  {| files := {[ FRONT_END_ADDRESSES_FILE := print_registry on_goerli;
                 FRONT_END_ABI_FILE := "[{}]" ]};
     written := [] |}.

(** A second contract, deployed later, and a second network. *)
Definition later_raffle : string := "0xCf7Ed3AccA5a467e9e704C703E8D87F634fB0Fc9".
Definition goerli : N := 5.
Definition localhost : N := 31337.

End FrontEnd.

(** ** The Raffle contract and the mock randomness oracle

    The tests drive two contracts, [Raffle] and [VRFCoordinatorV2Mock],
    whose Solidity sources are not part of this development; the tests call
    them and check what they answer.  Both are modelled here from the
    specification, on one chain state. *)

Module Raffle.
Import Js.

Abbreviation address := string.

(** [getRaffleState()] prints [OPEN] as 0 and [CALCULATING] as 1. *)
Inductive RaffleState : Type := OPEN | CALCULATING.

Definition RaffleState_toString (s : RaffleState) : string :=
  match s with OPEN => "0" | CALCULATING => "1" end.

(** The named failure conditions the tests expect, and the two ways the
    chain refuses a transaction that the model needs to be total. *)
Inductive revert : Type :=
| Raffle__NotEnoughETHEntered
| Raffle__NotOpen
| Raffle__UpkeepNotNeeded
| nonexistent_request
| division_by_zero
| insufficient_funds.

Inductive event : Type :=
| RaffleEnter (player : address)
| RandomWordsRequested (requestId : N)
| RequestedRaffleWinner (requestId : N)
| WinnerPicked (winner : address).

(** Modelled from the spec: the state of the chain the tests observe; the
    Solidity sources of [Raffle] and of [VRFCoordinatorV2Mock] are missing.
    Amounts and times are unsigned integers that stay far below the 256-bit
    range, where Solidity's checked arithmetic does not interfere. *)
Record chain : Type :=
  { block_timestamp : N;
    balances : gmap address N;
    (* Raffle *)
    entranceFee : N;
    interval : N;
    raffleState : RaffleState;
    players : list address;
    lastTimestamp : N;
    recentWinner : option address;
    raffle_balance : N;
    (* VRFCoordinatorV2Mock *)
    nextRequestId : N;
    outstanding : list N }.

Definition getBalance (c : chain) (a : address) : N :=
  default 0%N (balances c !! a).

Definition getNumberOfPlayers (c : chain) : N := N.of_nat (length (players c)).

Definition getPlayer (c : chain) (i : nat) : option address := players c !! i.

(** Modelled from the spec: the deployment of [Raffle], missing from the
    sources ("construction leaves the contract in its initial, open, state
    with a configured interval"); the mock oracle numbers its requests from
    1 (the test expects the first request id to be above 0). *)
Definition deploy (fee itv now : N) (accounts : gmap address N) : chain :=
  {| block_timestamp := now;
     balances := accounts;
     entranceFee := fee;
     interval := itv;
     raffleState := OPEN;
     players := [];
     lastTimestamp := now;
     recentWinner := None;
     raffle_balance := 0;
     nextRequestId := 1;
     outstanding := [] |}.

(** Modelled from the spec: [Raffle.enterRaffle], missing from the sources
    ("entry with payment below the configured fee always fails with the not
    enough funds condition; entry at or above the fee always succeeds and
    increases the participant count by one"; "entry is rejected once the
    contract has transitioned to a calculating state").  The payment leaves
    the sender; the contract's balance is, in the spec's words, the sum of
    all entry fees, the entry fee times the participant count, so it grows
    by the fee with each entry.  Of what is paid above the fee the spec says
    nothing. *)
Definition enterRaffle (sender : address) (value : N)
  : js chain revert (list event) :=
  fun c =>
    if (getBalance c sender <? value)%N then (Throw insufficient_funds, c)
    else if (value <? entranceFee c)%N then (Throw Raffle__NotEnoughETHEntered, c)
    else match raffleState c with
         | CALCULATING => (Throw Raffle__NotOpen, c)
         | OPEN =>
             (Return [RaffleEnter sender],
              {| block_timestamp := block_timestamp c;
                 balances := <[sender := (getBalance c sender - value)%N]> (balances c);
                 entranceFee := entranceFee c;
                 interval := interval c;
                 raffleState := OPEN;
                 players := players c ++ [sender];
                 lastTimestamp := lastTimestamp c;
                 recentWinner := recentWinner c;
                 raffle_balance := (raffle_balance c + entranceFee c)%N;
                 nextRequestId := nextRequestId c;
                 outstanding := outstanding c |})
         end.

(** The four conditions of the upkeep, with the names the tests' comment
    gives them.  The elapsed time is the block's timestamp less the stored
    one, which is never later than the block's ([consistent] below). *)
Definition timePassed (c : chain) : bool :=
  (interval c <=? block_timestamp c - lastTimestamp c)%N.
Definition isOpen (c : chain) : bool :=
  match raffleState c with OPEN => true | CALCULATING => false end.
Definition hasBalance (c : chain) : bool := (0 <? raffle_balance c)%N.
Definition hasPlayers (c : chain) : bool := (0 <? getNumberOfPlayers c)%N.

(** Modelled from the spec: [Raffle.checkUpkeep], missing from the sources
    ("eligibility is true if and only if: elapsed time >= interval AND
    state = open AND balance > 0 AND participant count > 0"); the tests'
    comment reads
    [upkeepNeeded = (timePassed && isOpen && hasBalance && hasPlayers)]. *)
Definition checkUpkeep (c : chain) : bool :=
  timePassed c && isOpen c && hasBalance c && hasPlayers c.

(** Modelled from the spec: [Raffle.performUpkeep] and the request it files
    with [VRFCoordinatorV2Mock], missing from the sources ("triggering the
    upkeep action when eligibility is false fails with a named error; when
    true, it transitions state to calculating, emits a
    request-identifier-bearing event, and invokes the mock randomness
    oracle").  The oracle's own event comes first in the receipt: the tests
    read the request id from the second event. *)
Definition performUpkeep : js chain revert (list event) :=
  fun c =>
    if checkUpkeep c then
      let requestId := nextRequestId c in
      (Return [RandomWordsRequested requestId; RequestedRaffleWinner requestId],
       {| block_timestamp := block_timestamp c;
          balances := balances c;
          entranceFee := entranceFee c;
          interval := interval c;
          raffleState := CALCULATING;
          players := players c;
          lastTimestamp := lastTimestamp c;
          recentWinner := recentWinner c;
          raffle_balance := raffle_balance c;
          nextRequestId := (requestId + 1)%N;
          outstanding := outstanding c ++ [requestId] |})
    else (Throw Raffle__UpkeepNotNeeded, c).

(** Modelled from the spec: [VRFCoordinatorV2Mock.fulfillRandomWords] and
    the callback of [Raffle] it triggers, missing from the sources
    ("supplying a randomness fulfillment for a request id that was never
    issued fails with a nonexistent request condition"; "a valid fulfillment
    selects a winner, empties the participant list, returns state to open,
    advances the stored timestamp, and transfers the accumulated balance to
    the selected winner").  [word] is the random value of the oracle.  The
    spec does not say how the value selects; here it is the participant at
    index [word mod count], and what is proved of a fulfilment for all words
    says no more than that the winner is one of the participants.  The fees
    of transactions (gas) are not modelled: a balance is exact for an
    account that sends no transaction in between. *)
Definition fulfillRandomWords (requestId word : N)
  : js chain revert (list event) :=
  fun c =>
    if negb (existsb (N.eqb requestId) (outstanding c))
    then (Throw nonexistent_request, c)
    else match players c !! N.to_nat (word mod getNumberOfPlayers c) with
         | None => (Throw division_by_zero, c)
         | Some winner =>
             (Return [WinnerPicked winner],
              {| block_timestamp := block_timestamp c;
                 balances :=
                   <[winner := (getBalance c winner + raffle_balance c)%N]>
                     (balances c);
                 entranceFee := entranceFee c;
                 interval := interval c;
                 raffleState := OPEN;
                 players := [];
                 lastTimestamp := block_timestamp c;
                 recentWinner := Some winner;
                 raffle_balance := 0;
                 nextRequestId := nextRequestId c;
                 outstanding :=
                   filter (fun r => negb (N.eqb requestId r)) (outstanding c) |})
         end.

(** What the tests send to the chain. *)
Inductive call : Type :=
| call_enterRaffle (sender : address) (value : N)
| call_performUpkeep
| call_fulfillRandomWords (requestId word : N)
| evm_mine.

Definition run_call (t : call) : js chain revert (list event) :=
  match t with
  | call_enterRaffle sender value => enterRaffle sender value
  | call_performUpkeep => performUpkeep
  | call_fulfillRandomWords requestId word => fulfillRandomWords requestId word
  | evm_mine => ret []
  end.

(** The next block: its timestamp is [dt] seconds after the previous
    block's. *)
Definition next_block (dt : N) (c : chain) : chain :=
  {| block_timestamp := (block_timestamp c + dt)%N;
     balances := balances c;
     entranceFee := entranceFee c;
     interval := interval c;
     raffleState := raffleState c;
     players := players c;
     lastTimestamp := lastTimestamp c;
     recentWinner := recentWinner c;
     raffle_balance := raffle_balance c;
     nextRequestId := nextRequestId c;
     outstanding := outstanding c |}.

(** A transaction is mined in a block of its own, [dt] seconds after the
    previous one; [evm_increaseTime] followed by [evm_mine] is the empty
    block with the increase as [dt].  The clock of the test network is not
    described by the spec: [dt] is whatever the network makes it, and what
    is proved for all [dt] uses only that a later block has a later
    timestamp. *)
Definition mine (dt : N) (t : call) : js chain revert (list event) :=
  fun c => run_call t (next_block dt c).

(** The chain states the tests can observe: a deployment followed by
    blocks, each strictly later than the one before. *)
Inductive reachable : chain -> Prop :=
| reachable_deploy fee itv now accounts :
    reachable (deploy fee itv now accounts)
| reachable_mine c dt t :
    reachable c -> (0 < dt)%N -> reachable (snd (mine dt t c)).

(** A whole scenario: the blocks of a test, in order; a reverted
    transaction leaves its block empty. *)
Fixpoint replay (blocks : list (N * call)) (c : chain) : chain :=
  match blocks with
  | [] => c
  | (dt, t) :: rest => replay rest (snd (mine dt t c))
  end.

(** What holds of every chain state the tests can observe: the stored
    timestamp is not in the future, and the contract's balance is the entry
    fee times the number of participants. *)
Record consistent (c : chain) : Prop :=
  { time_ok : (lastTimestamp c <= block_timestamp c)%N;
    pot_ok :
      raffle_balance c = (entranceFee c * N.of_nat (length (players c)))%N }.

(** The request ids of the oracle: they start at 1, and every outstanding
    one has been issued, that is, lies below the next one. *)
Record numbered (c : chain) : Prop :=
  { first_id : (1 <= nextRequestId c)%N;
    issued : Forall (fun r => (r < nextRequestId c)%N) (outstanding c) }.

End Raffle.

(** ** The scenarios of the tests *)

Module RaffleTests.
Import Js Raffle.

(** The fixture of the unit tests: four funded accounts, the first of which
    is the deployer, a fee of 0.01 ether and an interval of 30 seconds. *)
Definition accounts : list address := ["account0"; "account1"; "account2"; "account3"].
Definition deployer : address := "account0".
Definition ether : N := 1000000000000000000.
Definition raffleEntranceFee : N := 10000000000000000.
Definition sample_interval : N := 30.
Definition funds : gmap address N :=
  list_to_map ((fun a => (a, (10000 * ether)%N)) <$> accounts).

(** [deployments.fixture(["all"])] *)
Definition fixture : chain :=
  deploy raffleEntranceFee sample_interval 1700000000 funds.

Definition enter (who : address) : N * call :=
  (1%N, call_enterRaffle who raffleEntranceFee).

(** [evm_increaseTime] by [seconds], then [evm_mine]. *)
Definition increaseTime (seconds : N) : N * call := (seconds, evm_mine).

(** The [checkUpkeep] tests, up to the call of [checkUpkeep]. *)
Definition no_eth_sent : chain :=
  replay [increaseTime (sample_interval + 1)] fixture.

Definition raffle_not_open : chain :=
  replay [enter deployer; increaseTime (sample_interval + 1);
          (1%N, call_performUpkeep)] fixture.

Definition too_early : chain :=
  replay [enter deployer; increaseTime (sample_interval - 5)] fixture.

Definition all_four_hold : chain :=
  replay [enter deployer; increaseTime (sample_interval + 1)] fixture.

(** The [beforeEach] of the [fulfillRandomWords] tests. *)
Definition before_fulfill : chain := all_four_hold.

(** "picks a winner, resets the lottery, and sends money": three more
    entrances, then the upkeep; the randomness is fulfilled for the request
    id of the receipt's second event. *)
Definition four_entered : chain :=
  replay [enter "account1"; enter "account2"; enter "account3"] before_fulfill.

Definition upkeep_performed : completion revert (list event) * chain :=
  mine 1 call_performUpkeep four_entered.

Definition requestId_of (receipt : completion revert (list event)) : option N :=
  match receipt with
  | Return [_; RequestedRaffleWinner requestId] => Some requestId
  | _ => None
  end.

Definition winner_picked (word : N) : completion revert (list event) * chain :=
  match requestId_of upkeep_performed.1 with
  | Some requestId =>
      mine 1 (call_fulfillRandomWords requestId word) upkeep_performed.2
  | None => (Throw nonexistent_request, upkeep_performed.2)
  end.

(** The staging test: one entrance at the fee; the upkeep and the
    fulfilment come from the keepers and the oracle of the live network. *)
Definition staging_entered : chain :=
  replay [enter deployer; increaseTime (sample_interval + 1);
          (1%N, call_performUpkeep)] fixture.

Definition staging_winner_picked (word : N)
  : completion revert (list event) * chain :=
  mine 12 (call_fulfillRandomWords 1 word) staging_entered.

End RaffleTests.

(** ** The test files' gates and the scenarios for any fixture *)

Module TestSuites.

(** Each test file opens with a choice between [describe.skip], which it
    does not call, and its suite; [developmentChains] is a list of network
    names from the helper configuration. *)
Inductive suite : Type := not_defined | defined.

(** The staging file: [developmentChains.includes(network.name)
    ? describe.skip : describe(...)]. *)
Definition staging_suite (developmentChains : list string)
    (network_name : string) : suite :=
  if FrontEnd.Array_includes developmentChains network_name
  then not_defined else defined.

(** The unit file: [!developmentChains.includes(network.name)
    ? describe.skip : describe(...)]. *)
Definition unit_suite (developmentChains : list string)
    (network_name : string) : suite :=
  if negb (FrontEnd.Array_includes developmentChains network_name)
  then not_defined else defined.

End TestSuites.

Module RaffleRounds.
Import Js Raffle.

(** An entrance at the fee, [raffle.enterRaffle({ value: raffleEntranceFee })],
    in the next block, [gap] seconds after the previous one. *)
Definition enter_at (gap fee : N) (who : address) : N * call :=
  (gap, call_enterRaffle who fee).

(** The accounts the loop
    [for (let i = startingIndex; i < startingIndex + additionalEntrances; i++)]
    connects, when the list of signers is long enough. *)
Definition loop_accounts (accounts : list address)
    (startingIndex additionalEntrances : nat) : list address :=
  take additionalEntrances (drop startingIndex accounts).

(** An entrance [gap] seconds after the deployment, then
    [evm_increaseTime] by [seconds] and [evm_mine]. *)
Definition entered_then_waited (fee itv now : N) (funds : gmap address N)
    (deployer : address) (gap seconds : N) : chain :=
  replay [enter_at gap fee deployer; (seconds, evm_mine)]
    (deploy fee itv now funds).

(** The [beforeEach] of the [fulfillRandomWords] tests; the blocks of the
    transactions come [gap] seconds one after the other. *)
Definition before_each (fee itv now gap : N) (funds : gmap address N)
    (deployer : address) : chain :=
  entered_then_waited fee itv now funds deployer gap (itv + 1).

(** "picks a winner, resets the lottery, and sends money", for any fixture:
    the loop's entrances, the upkeep, and the fulfilment of the request
    named by the receipt's second event. *)
Definition all_entered (fee itv now gap : N) (funds : gmap address N)
    (deployer : address) (entrants : list address) : chain :=
  replay (enter_at gap fee <$> entrants)
    (before_each fee itv now gap funds deployer).

Definition upkeep (fee itv now gap : N) (funds : gmap address N)
    (deployer : address) (entrants : list address)
  : completion revert (list event) * chain :=
  mine gap call_performUpkeep
    (all_entered fee itv now gap funds deployer entrants).

Definition picked (fee itv now gap : N) (funds : gmap address N)
    (deployer : address) (entrants : list address) (word : N)
  : completion revert (list event) * chain :=
  match RaffleTests.requestId_of
          (upkeep fee itv now gap funds deployer entrants).1 with
  | Some requestId =>
      mine gap (call_fulfillRandomWords requestId word)
        (upkeep fee itv now gap funds deployer entrants).2
  | None =>
      (Throw nonexistent_request,
       (upkeep fee itv now gap funds deployer entrants).2)
  end.

End RaffleRounds.

(** * Properties *)

(** ** Strings *)

Module JsStringFacts.
Import JsString.

Lemma lower_char_upper_char (c : ascii) :
  lower_char (upper_char c) = lower_char c.
Proof. destruct c as [[] [] [] [] [] [] [] []]; reflexivity. Qed.

Lemma lower_char_idem (c : ascii) : lower_char (lower_char c) = lower_char c.
Proof. destruct c as [[] [] [] [] [] [] [] []]; reflexivity. Qed.

Lemma toLowerCase_app (s t : string) :
  toLowerCase (s +:+ t) = toLowerCase s +:+ toLowerCase t.
Proof. induction s as [|c s IH]; simpl; [reflexivity | by rewrite IH]. Qed.

(** Two strings that agree up to the case of their letters have the same
    lower-case form. *)
Lemma casing_of_toLowerCase (pat s : string) :
  casing_of pat s = true -> toLowerCase s = toLowerCase pat.
Proof.
  revert s. induction pat as [|p pat IH]; intros [|c s]; simpl; try done.
  rewrite andb_true_iff, !orb_true_iff. intros [Hc Hs].
  rewrite (IH s Hs). f_equal.
  destruct Hc as [[Hc | Hc] | Hc]; apply Ascii.eqb_eq in Hc; subst c.
  - reflexivity.
  - apply lower_char_upper_char.
  - apply lower_char_idem.
Qed.

Lemma prefix_app (p t : string) : String.prefix p (p +:+ t) = true.
Proof.
  induction p as [|c p IH]; simpl.
  - by destruct t.
  - destruct (ascii_dec c c); [exact IH | done].
Qed.

Lemma includes_unfold (s p : string) :
  includes s p =
  String.prefix p s
  || match s with EmptyString => false | String _ r => includes r p end.
Proof. by destruct s. Qed.

Lemma includes_here (p t : string) : includes (p +:+ t) p = true.
Proof. rewrite includes_unfold, prefix_app. reflexivity. Qed.

Lemma includes_later (s t p : string) :
  includes t p = true -> includes (s +:+ t) p = true.
Proof.
  intros H. induction s as [|c s IH]; simpl; [exact H |].
  rewrite IH. apply orb_true_r.
Qed.

Lemma includes_middle (pre p post : string) :
  includes (pre +:+ p +:+ post) p = true.
Proof. apply includes_later, includes_here. Qed.

(** What [includes] decides: the pattern sits between some prefix and some
    suffix. *)
Lemma prefix_split (p s : string) :
  String.prefix p s = true -> exists post, s = p +:+ post.
Proof.
  revert s. induction p as [|c p IH]; intros s H; simpl in *.
  - by exists s.
  - destruct s as [|d s]; [done |]. simpl in H.
    destruct (ascii_dec c d) as [-> | ]; [| done].
    destruct (IH s H) as [post ->]. exists post. reflexivity.
Qed.

Lemma includes_split (s p : string) :
  includes s p = true -> exists pre post, s = pre +:+ p +:+ post.
Proof.
  induction s as [|c s IH]; rewrite includes_unfold, orb_true_iff;
    intros [H | H].
  - destruct (prefix_split _ _ H) as [post E]. by exists EmptyString, post.
  - done.
  - destruct (prefix_split _ _ H) as [post E]. by exists EmptyString, post.
  - destruct (IH H) as (pre & post & ->). exists (String c pre), post.
    reflexivity.
Qed.

Lemma lower_char_casing (c : ascii) :
  Ascii.eqb c (lower_char c)
  || Ascii.eqb c (upper_char (lower_char c))
  || Ascii.eqb c (lower_char (lower_char c)) = true.
Proof. destruct c as [[] [] [] [] [] [] [] []]; reflexivity. Qed.

(** A string is a casing of its lower-case form. *)
Lemma casing_of_lower (s : string) : casing_of (toLowerCase s) s = true.
Proof.
  induction s as [|c s IH]; simpl; [reflexivity |].
  by rewrite lower_char_casing, IH.
Qed.

(** A split of the lower-case form is the lower-case form of a split. *)
Lemma toLowerCase_app_inv (s a b : string) :
  toLowerCase s = a +:+ b ->
  exists s1 s2, s = s1 +:+ s2 /\ toLowerCase s1 = a /\ toLowerCase s2 = b.
Proof.
  revert s. induction a as [|x a IH]; intros s H.
  - exists EmptyString, s. by repeat split.
  - destruct s as [|c s]; [done |]. simpl in H. injection H as Hx Hs.
    destruct (IH s Hs) as (s1 & s2 & -> & H1 & H2).
    exists (String c s1), s2. repeat split; [| done]. simpl. by rewrite Hx, H1.
Qed.

End JsStringFacts.

(** ** The verification helper *)

Module VerifyFacts.
Import Js JsString JsStringFacts Verify.

Lemma verify_unfold {value} (run : string -> task_arguments -> js console thrown unit)
    (contractAdress : string) (args : list value) (out : console) :
  verify run contractAdress args out =
  try_catch
    (run "verify:verify"
         {| address := contractAdress; constructorArguments := args |})
    (fun e =>
       match e with
       | an_error err =>
           if already_verified err
           then log "contract already verified"
           else error err
       | another_value _ => throw (an_error TypeError_toLowerCase)
       end)
    (out ++ [console_log "verifying contract"]).
Proof. reflexivity. Qed.

(** The three ways [verify] ends, by what the task did: after a task that
    returned, and after a task that threw an error object, it returns; after
    a task that threw any other value it throws. *)
Lemma verify_cases {value}
    (run : string -> task_arguments -> js console thrown unit)
    (contractAdress : string) (args : list value) (out : console) :
  match run "verify:verify"
          {| address := contractAdress; constructorArguments := args |}
          (out ++ [console_log "verifying contract"]) with
  | (Return _, out') =>
      verify run contractAdress args out = (Return tt, out')
  | (Throw (an_error e), out') =>
      verify run contractAdress args out =
      (Return tt,
       out' ++ [if already_verified e
                then console_log "contract already verified"
                else console_error e])
  | (Throw (another_value _), out') =>
      verify run contractAdress args out
      = (Throw (an_error TypeError_toLowerCase), out')
  end.
Proof.
  rewrite verify_unfold. unfold try_catch.
  destruct (run _ _ _) as [[[] | [e | shown]] out']; simpl.
  - reflexivity.
  - unfold log, error. by destruct (already_verified e).
  - reflexivity.
Qed.

(** C1, where the code departs from it.  When the task fails with a value
    that has no string [message], [verify] does not complete normally: the
    [catch] block itself throws a [TypeError], which leaves [verify], and
    neither the notice nor the error is printed. *)
Theorem verify_raises_without_message {value}
    (run : string -> task_arguments -> js console thrown unit)
    (contractAdress : string) (args : list value) (out out' : console)
    (shown : string) :
  run "verify:verify"
      {| address := contractAdress; constructorArguments := args |}
      (out ++ [console_log "verifying contract"])
  = (Throw (another_value shown), out') ->
  verify run contractAdress args out
  = (Throw (an_error TypeError_toLowerCase), out').
Proof.
  intros Hrun. pose proof (verify_cases run contractAdress args out) as H.
  by rewrite Hrun in H.
Qed.

(** A task whose promise is rejected with the string "ETIMEDOUT". *)
Lemma verify_raises_without_message_witness :
  verify (rejecting_task "ETIMEDOUT") sample_address [30%N] []
  = (Throw (an_error TypeError_toLowerCase),
     [console_log "verifying contract"]).
Proof.
  exact (verify_raises_without_message (rejecting_task "ETIMEDOUT")
           sample_address [30%N] [] [console_log "verifying contract"]
           "ETIMEDOUT" eq_refl).
Defined.

(** After a task that returned, or that threw an error object, [verify]
    returns, with the same value in both cases. *)
Lemma verify_returns_on_errors {value}
    (run : string -> task_arguments -> js console thrown unit)
    (contractAdress : string) (args : list value) (out : console) :
  (forall (shown : string) (out' : console),
     run "verify:verify"
         {| address := contractAdress; constructorArguments := args |}
         (out ++ [console_log "verifying contract"])
     <> (Throw (another_value shown), out')) ->
  (verify run contractAdress args out).1 = Return tt.
Proof.
  intros Hrun. pose proof (verify_cases run contractAdress args out) as H.
  destruct (run _ _ _) as [[[] | [e | shown]] out'].
  - by rewrite H.
  - by rewrite H.
  - by destruct (Hrun shown out').
Qed.

(** The test on the message is the lower-cased substring test. *)
Lemma already_verified_iff (e : JsError) :
  already_verified e = true <->
  exists pre post,
    toLowerCase (message e) = pre +:+ "already verified" +:+ post.
Proof.
  unfold already_verified. split.
  - apply includes_split.
  - intros (pre & post & ->). apply includes_middle.
Qed.

Lemma already_verified_casing (pre mid post : string) :
  casing_of "already verified" mid = true ->
  already_verified {| message := pre +:+ mid +:+ post |} = true.
Proof.
  intros H. unfold already_verified; simpl.
  rewrite !toLowerCase_app, (casing_of_toLowerCase _ _ H).
  apply includes_middle.
Qed.

(** C8. When the task fails with a message that holds "already verified" in
    any casing of its letters, between any prefix and suffix, [verify] takes
    the already-verified branch: it prints the notice, and not the error. *)
Theorem verify_already_verified_any_casing {value}
    (run : string -> task_arguments -> js console thrown unit)
    (contractAdress : string) (args : list value) (out out' : console)
    (pre mid post : string) :
  casing_of "already verified" mid = true ->
  run "verify:verify"
      {| address := contractAdress; constructorArguments := args |}
      (out ++ [console_log "verifying contract"])
  = (Throw (an_error {| message := pre +:+ mid +:+ post |}), out') ->
  verify run contractAdress args out
  = (Return tt, out' ++ [console_log "contract already verified"]).
Proof.
  intros Hmid Hrun. rewrite verify_unfold. unfold try_catch. rewrite Hrun.
  rewrite (already_verified_casing _ _ _ Hmid). reflexivity.
Qed.

(** The explorer's answer in capitals, as an instance. *)
Lemma verify_already_verified_any_casing_witness :
  casing_of "already verified" "Already Verified" = true
  /\ verify (failing_task "Contract source code Already Verified")
            sample_address [30%N] []
     = (Return tt,
        [console_log "verifying contract";
         console_log "contract already verified"]).
Proof.
  split; [reflexivity |].
  apply (verify_already_verified_any_casing
           (failing_task "Contract source code Already Verified")
           sample_address [30%N] []
           [console_log "verifying contract"]
           "Contract source code " "Already Verified" "");
    reflexivity.
Defined.

(** Without the lower-casing the same message would not match. *)
Example case_sensitive_test_misses :
  includes "Contract source code Already Verified" "already verified" = false
  /\ already_verified {| message := "Contract source code Already Verified" |}
     = true.
Proof. split; reflexivity. Qed.

(** Any other message goes to [console.error]. *)
Example verify_other_failure :
  verify (failing_task "Invalid API Key") sample_address [30%N] []
  = (Return tt,
     [console_log "verifying contract";
      console_error {| message := "Invalid API Key" |}]).
Proof. reflexivity. Qed.

(** The test of line 11, read on the message itself: it holds exactly of the
    messages that hold "already verified" in some casing of its letters. *)
Lemma already_verified_casing_iff (e : JsError) :
  already_verified e = true <->
  exists pre mid post,
    message e = pre +:+ mid +:+ post
    /\ casing_of "already verified" mid = true.
Proof.
  split.
  - intros H. apply already_verified_iff in H as (pre & post & H).
    apply toLowerCase_app_inv in H as (s1 & s2 & Hs & H1 & H2).
    apply toLowerCase_app_inv in H2 as (mid & s3 & -> & Hmid & _).
    exists s1, mid, s3. split; [done |].
    rewrite <- Hmid. apply casing_of_lower.
  - intros (pre & mid & post & Hm & Hmid). destruct e as [m]; simpl in Hm.
    subst m. by apply already_verified_casing.
Qed.

(** Which branch of the [catch] runs.  After a task that threw an error
    object, [verify] ends with the already-verified notice exactly when the
    message holds "already verified" in some casing of its letters; for
    every other message it ends with the error on [console.error]. *)
Theorem verify_branch_iff {value}
    (run : string -> task_arguments -> js console thrown unit)
    (contractAdress : string) (args : list value) (out out' : console)
    (e : JsError) :
  run "verify:verify"
      {| address := contractAdress; constructorArguments := args |}
      (out ++ [console_log "verifying contract"])
  = (Throw (an_error e), out') ->
  (verify run contractAdress args out
   = (Return tt, out' ++ [console_log "contract already verified"])
   <-> exists pre mid post,
         message e = pre +:+ mid +:+ post
         /\ casing_of "already verified" mid = true)
  /\ (verify run contractAdress args out
      = (Return tt, out' ++ [console_error e])
      <-> ~ exists pre mid post,
              message e = pre +:+ mid +:+ post
              /\ casing_of "already verified" mid = true).
Proof.
  intros Hrun. rewrite verify_unfold. unfold try_catch. rewrite Hrun.
  rewrite <- already_verified_casing_iff.
  destruct (already_verified e); unfold log, error; split; split;
    try done; intros H.
  - injection H as H. by apply app_inj_tail in H as [_ [=]].
  - injection H as H. by apply app_inj_tail in H as [_ [=]].
Qed.

Lemma verify_branch_iff_witness :
  verify (failing_task "Invalid API Key") sample_address [30%N] []
  = (Return tt,
     [console_log "verifying contract";
      console_error {| message := "Invalid API Key" |}])
  <-> ~ exists pre mid post,
          "Invalid API Key" = pre +:+ mid +:+ post
          /\ casing_of "already verified" mid = true.
Proof.
  exact (proj2 (verify_branch_iff (failing_task "Invalid API Key")
                  sample_address [30%N] []
                  [console_log "verifying contract"]
                  {| message := "Invalid API Key" |} eq_refl)).
Defined.

End VerifyFacts.

(** ** deploy/99-update-front-end.js *)

Module FrontEndFacts.
Import Js FrontEnd.

Lemma Array_includes_true (l : list string) (x : string) :
  Array_includes l x = true <-> x ∈ l.
Proof.
  unfold Array_includes. rewrite existsb_exists. split.
  - intros (y & Hy & E). apply String.eqb_eq in E. subst y.
    by apply list_elem_of_In.
  - intros H. exists x. split; [by apply list_elem_of_In | apply String.eqb_refl].
Qed.

Lemma Array_includes_false (l : list string) (x : string) :
  Array_includes l x = false <-> x ∉ l.
Proof.
  rewrite <- Array_includes_true. by destruct (Array_includes l x).
Qed.

(** *** The change to the parsed object *)

Lemma record_address_absent (chainId a : string) (r : registry) :
  r !! chainId = None -> record_address chainId a r = <[chainId := [a]]> r.
Proof. intros H. unfold record_address. by rewrite H. Qed.

Lemma record_address_missing (chainId a : string) (r : registry) (l : list string) :
  r !! chainId = Some l -> a ∉ l ->
  record_address chainId a r = <[chainId := l ++ [a]]> r.
Proof.
  intros H Ha. unfold record_address. rewrite H.
  apply Array_includes_false in Ha. by rewrite Ha.
Qed.

Lemma record_address_listed (chainId a : string) (r : registry) (l : list string) :
  r !! chainId = Some l -> a ∈ l -> record_address chainId a r = r.
Proof.
  intros H Ha. unfold record_address. rewrite H.
  apply Array_includes_true in Ha. by rewrite Ha.
Qed.

Lemma record_address_other (chainId a k : string) (r : registry) :
  k ≠ chainId -> record_address chainId a r !! k = r !! k.
Proof.
  intros Hk. unfold record_address.
  destruct (r !! chainId) as [l|] eqn:E.
  - destruct (Array_includes l a); simpl; [done |].
    by rewrite lookup_insert_ne.
  - by rewrite lookup_insert_ne.
Qed.

(** After the change the address is listed under the chain id. *)
Lemma record_address_lists (chainId a : string) (r : registry) :
  exists l, record_address chainId a r !! chainId = Some l /\ a ∈ l.
Proof.
  destruct (r !! chainId) as [l|] eqn:E.
  - destruct (decide (a ∈ l)) as [Ha | Ha].
    + rewrite (record_address_listed _ _ _ _ E Ha). eauto.
    + rewrite (record_address_missing _ _ _ _ E Ha), lookup_insert_eq.
      eexists; split; [done |]. set_solver.
  - rewrite (record_address_absent _ _ _ E), lookup_insert_eq.
    eexists; split; [done |]. set_solver.
Qed.

Lemma record_address_idem (chainId a : string) (r : registry) :
  record_address chainId a (record_address chainId a r)
  = record_address chainId a r.
Proof.
  destruct (record_address_lists chainId a r) as (l & Hl & Ha).
  by apply (record_address_listed _ _ _ l).
Qed.

Lemma occurrences_app (a : string) (l1 l2 : list string) :
  occurrences a (l1 ++ l2) = (occurrences a l1 + occurrences a l2)%nat.
Proof. unfold occurrences. by rewrite List.filter_app, length_app. Qed.

Lemma occurrences_self (a : string) : occurrences a [a] = 1%nat.
Proof. unfold occurrences; simpl. by rewrite String.eqb_refl. Qed.

Lemma occurrences_not_in (a : string) (l : list string) :
  a ∉ l -> occurrences a l = 0%nat.
Proof.
  unfold occurrences. induction l as [|x l IH]; simpl; [done |].
  intros H. apply not_elem_of_cons in H as [Hx Hl].
  destruct (String.eqb_spec a x); [done | by apply IH].
Qed.

Lemma occurrences_in (a : string) (l : list string) :
  a ∈ l -> (1 <= occurrences a l)%nat.
Proof.
  unfold occurrences. induction l as [|x l IH]; simpl.
  - intros H. by apply elem_of_nil in H.
  - intros H. destruct (String.eqb_spec a x); simpl; [lia |].
    apply elem_of_cons in H as [H | H]; [done | by apply IH].
Qed.

(** *** The run of the script *)

Section Run.

Variable JSON_parse : string -> option registry.
Variable JSON_stringify : registry -> string.
Variable hre : runtime.

(** With the contract deployed, the chain id configured and a registry file
    that parses, the update runs to its end: it stores the text of the
    changed registry. *)
Lemma update_runs (raffle : contract) (n : N) (text : string) (r : registry)
    (d : disk) :
  deployments hre "Raffle" = Some raffle ->
  network_config_chainId hre = Some n ->
  files d !! FRONT_END_ADDRESSES_FILE = Some text ->
  JSON_parse text = Some r ->
  updateContractAddresses JSON_parse JSON_stringify hre d =
  (Return tt,
   {| files :=
        <[FRONT_END_ADDRESSES_FILE :=
            JSON_stringify
              (record_address (Number_toString n) (address raffle) r)]>
          (files d);
      written := written d ++ [FRONT_END_ADDRESSES_FILE] |}).
Proof.
  intros Hc Hn Hf Hp.
  unfold updateContractAddresses, getContract, chainId_toString,
    parse, readFileSync, writeFileSync, mbind, js_bind, bind.
  rewrite Hc, Hn; simpl. rewrite Hf, Hp; simpl. reflexivity.
Qed.

(** Without a registry file that parses, the update throws and the disk is
    as it was. *)
Lemma update_throws (d : disk) :
  files d !! FRONT_END_ADDRESSES_FILE = None
  \/ (exists text, files d !! FRONT_END_ADDRESSES_FILE = Some text
                   /\ JSON_parse text = None) ->
  exists e,
    updateContractAddresses JSON_parse JSON_stringify hre d = (Throw e, d).
Proof.
  intros H.
  unfold updateContractAddresses, getContract, chainId_toString,
    parse, readFileSync, writeFileSync, mbind, js_bind, bind.
  destruct (deployments hre "Raffle") as [c|]; simpl; [| by eexists].
  destruct H as [H | (text & H & Hp)]; rewrite H; simpl; [by eexists |].
  rewrite Hp; simpl. by eexists.
Qed.

(** [updateAbi] writes the interface file only. *)
Lemma updateAbi_keeps (d : disk) (path : string) :
  path ≠ FRONT_END_ABI_FILE ->
  files (updateAbi hre d).2 !! path = files d !! path.
Proof.
  intros Hp. unfold updateAbi, getContract, writeFileSync, mbind, js_bind, bind.
  destruct (deployments hre "Raffle") as [c|]; simpl; [| done].
  by rewrite lookup_insert_ne.
Qed.

(** Whatever the disk, the exported function leaves a missing registry file
    missing. *)
Lemma module_exports_keeps_missing (d : disk) :
  files d !! FRONT_END_ADDRESSES_FILE = None ->
  files (module_exports JSON_parse JSON_stringify hre d).2
    !! FRONT_END_ADDRESSES_FILE = None.
Proof.
  intros H. unfold module_exports.
  destruct (truthy _); [| exact H].
  unfold mbind, js_bind, bind, not_awaited; simpl.
  destruct (update_throws d (or_introl H)) as [e ->]; simpl.
  by rewrite updateAbi_keeps.
Qed.

End Run.

Lemma no_duplicates_record_address (chainId a : string) (r : registry) :
  no_duplicates r -> no_duplicates (record_address chainId a r).
Proof.
  intros Hr k l. destruct (decide (k = chainId)) as [-> | Hk].
  - destruct (r !! chainId) as [l0|] eqn:E.
    + destruct (decide (a ∈ l0)) as [Ha | Ha].
      * rewrite (record_address_listed _ _ _ _ E Ha). apply Hr.
      * rewrite (record_address_missing _ _ _ _ E Ha), lookup_insert_eq.
        intros [= <-]. apply NoDup_app. split; [by eapply Hr |].
        split; [| apply NoDup_singleton].
        intros x Hx Hx'. apply list_elem_of_singleton in Hx'. by subst x.
    + rewrite (record_address_absent _ _ _ E), lookup_insert_eq.
      intros [= <-]. apply NoDup_singleton.
  - rewrite record_address_other by done. apply Hr.
Qed.

(** The list of the chain id after the change: the list before, with the
    address behind it when it was not in it. *)
Lemma record_address_extends (chainId a : string) (r : registry)
    (l : list string) :
  r !! chainId = Some l ->
  exists l', record_address chainId a r !! chainId = Some l'
    /\ (l' = l \/ ((a ∉ l) /\ l' = l ++ [a]))
    /\ (forall (i : nat) (x : string), l !! i = Some x -> l' !! i = Some x).
Proof.
  intros E. destruct (decide (a ∈ l)) as [Ha | Ha].
  - rewrite (record_address_listed _ _ _ _ E Ha). exists l. auto.
  - rewrite (record_address_missing _ _ _ _ E Ha), lookup_insert_eq.
    exists (l ++ [a]). split; [done |]. split; [auto |].
    intros i x Hi. by apply lookup_app_l_Some.
Qed.

Lemma record_address_once (chainId a : string) (r : registry) :
  (match r !! chainId with Some l => occurrences a l | None => 0 end <= 1)%nat ->
  exists l, record_address chainId a r !! chainId = Some l
    /\ occurrences a l = 1%nat.
Proof.
  destruct (r !! chainId) as [l|] eqn:E; intros H.
  - destruct (decide (a ∈ l)) as [Ha | Ha].
    + rewrite (record_address_listed _ _ _ _ E Ha). exists l.
      split; [done |]. apply occurrences_in in Ha. lia.
    + rewrite (record_address_missing _ _ _ _ E Ha), lookup_insert_eq.
      eexists; split; [done |].
      by rewrite occurrences_app, occurrences_self, occurrences_not_in.
  - rewrite (record_address_absent _ _ _ E), lookup_insert_eq.
    eexists; split; [done |]. apply occurrences_self.
Qed.

(** C2. With the contract deployed and a registry file that parses, the
    update returns after one write of the registry file, which then holds
    the text of the changed registry: when the chain id was absent it maps
    to the one-element list of the deployed address; when it was present
    without the address, to its list with the address appended; when the
    address was listed, the registry is the one read, and the file is
    written all the same. *)
Theorem update_adds_address
    (JSON_parse : string -> option registry)
    (JSON_stringify : registry -> string)
    (hre : runtime) (raffle : contract) (n : N) (text : string)
    (r : registry) (d : disk) :
  deployments hre "Raffle" = Some raffle ->
  network_config_chainId hre = Some n ->
  files d !! FRONT_END_ADDRESSES_FILE = Some text ->
  JSON_parse text = Some r ->
  exists r' : registry,
    updateContractAddresses JSON_parse JSON_stringify hre d =
    (Return tt,
     {| files := <[FRONT_END_ADDRESSES_FILE := JSON_stringify r']> (files d);
        written := written d ++ [FRONT_END_ADDRESSES_FILE] |})
    /\ (r !! Number_toString n = None ->
        r' = <[Number_toString n := [address raffle]]> r)
    /\ (forall l : list string,
          r !! Number_toString n = Some l -> address raffle ∉ l ->
          r' = <[Number_toString n := l ++ [address raffle]]> r)
    /\ (forall l : list string,
          r !! Number_toString n = Some l -> address raffle ∈ l -> r' = r).
Proof.
  intros Hc Hn Hf Hp.
  exists (record_address (Number_toString n) (address raffle) r).
  split; [by eapply update_runs |].
  split; [apply record_address_absent |].
  split; intros l; [apply record_address_missing | apply record_address_listed].
Qed.

(** A first deployment on the local chain, next to an entry of another
    chain. *)
Lemma update_adds_address_witness :
  deployments sample_runtime "Raffle" = Some sample_raffle
  /\ network_config_chainId sample_runtime = Some 31337%N
  /\ files (disk_with on_goerli) !! FRONT_END_ADDRESSES_FILE
     = Some (print_registry on_goerli)
  /\ sample_parse (print_registry on_goerli) = Some on_goerli
  /\ sample_update (disk_with on_goerli) =
     (Return tt,
      {| files := <[FRONT_END_ADDRESSES_FILE := print_registry on_both]>
                    (files (disk_with on_goerli));
         written := [FRONT_END_ADDRESSES_FILE] |}).
Proof.
  assert (H1 : deployments sample_runtime "Raffle" = Some sample_raffle)
    by reflexivity.
  assert (H2 : network_config_chainId sample_runtime = Some 31337%N)
    by reflexivity.
  assert (H3 : files (disk_with on_goerli) !! FRONT_END_ADDRESSES_FILE
               = Some (print_registry on_goerli))
    by (vm_compute; reflexivity).
  assert (H4 : sample_parse (print_registry on_goerli) = Some on_goerli)
    by (vm_compute; reflexivity).
  repeat (split; [assumption |]).
  destruct (update_adds_address sample_parse print_registry sample_runtime
              sample_raffle 31337%N _ on_goerli (disk_with on_goerli)
              H1 H2 H3 H4) as (r' & Hrun & Habsent & _).
  rewrite (Habsent ltac:(vm_compute; reflexivity)) in Hrun.
  exact Hrun.
Defined.

(** C3, as amended. Running the update twice with the same chain id and
    address equals running it once: the second run returns, the files and
    the registry after it are those after the first run.  The list of the
    chain id then holds the address exactly once provided that the list read
    at the start held it at most once; the update never removes a second
    copy that was there before. *)
Theorem update_twice
    (JSON_parse : string -> option registry)
    (JSON_stringify : registry -> string)
    (hre : runtime) (raffle : contract) (n : N) (text : string)
    (r : registry) (d : disk) :
  deployments hre "Raffle" = Some raffle ->
  network_config_chainId hre = Some n ->
  files d !! FRONT_END_ADDRESSES_FILE = Some text ->
  JSON_parse text = Some r ->
  JSON_parse
    (JSON_stringify (record_address (Number_toString n) (address raffle) r))
  = Some (record_address (Number_toString n) (address raffle) r) ->
  let once := (updateContractAddresses JSON_parse JSON_stringify hre d).2 in
  let twice := updateContractAddresses JSON_parse JSON_stringify hre once in
  twice.1 = Return tt
  /\ files twice.2 = files once
  /\ registry_on JSON_parse twice.2 = registry_on JSON_parse once
  /\ registry_on JSON_parse once
     = Some (record_address (Number_toString n) (address raffle) r)
  /\ ((match r !! Number_toString n with
       | Some l => occurrences (address raffle) l
       | None => 0
       end <= 1)%nat ->
      listed JSON_parse twice.2 (Number_toString n) (address raffle)
      = Some 1%nat).
Proof.
  intros Hc Hn Hf Hp Hround once twice.
  set (r1 := record_address (Number_toString n) (address raffle) r) in *.
  assert (Honce : files once !! FRONT_END_ADDRESSES_FILE
                  = Some (JSON_stringify r1)).
  { unfold once. rewrite (update_runs _ _ _ _ _ _ _ _ Hc Hn Hf Hp); simpl.
    apply lookup_insert_eq. }
  assert (Htwice : twice =
    (Return tt,
     {| files := <[FRONT_END_ADDRESSES_FILE := JSON_stringify r1]> (files once);
        written := written once ++ [FRONT_END_ADDRESSES_FILE] |})).
  { unfold twice.
    rewrite (update_runs _ _ _ _ _ _ _ _ Hc Hn Honce Hround).
    unfold r1. by rewrite record_address_idem. }
  assert (Hfiles : files twice.2 = files once).
  { rewrite Htwice; simpl. by apply insert_id. }
  assert (Hreg : registry_on JSON_parse once = Some r1).
  { unfold registry_on. rewrite Honce; simpl. exact Hround. }
  split; [by rewrite Htwice |]. split; [exact Hfiles |].
  split; [unfold registry_on; by rewrite Hfiles |]. split; [exact Hreg |].
  intros Hprior. unfold listed, registry_on. rewrite Hfiles.
  fold (registry_on JSON_parse once). rewrite Hreg; simpl.
  destruct (record_address_once _ _ _ Hprior) as (l & Hl & Hone).
  fold r1 in Hl. rewrite Hl; simpl. by rewrite Hone.
Qed.

(** Two redeployments of the same contract next to an older local one. *)
Lemma update_twice_witness :
  listed sample_parse
    (sample_update (sample_update (disk_with older_local)).2).2
    "31337" (address sample_raffle)
  = Some 1%nat.
Proof.
  refine (proj2 (proj2 (proj2 (proj2
    (update_twice sample_parse print_registry sample_runtime sample_raffle
       31337%N (print_registry older_local) older_local (disk_with older_local)
       _ _ _ _ _)))) _).
  - reflexivity.
  - reflexivity.
  - vm_compute; reflexivity.
  - vm_compute; reflexivity.
  - vm_compute; reflexivity.
  - vm_compute. lia.
Defined.

(** C3, as stated, fails on a registry file that lists the address twice
    under the chain id: the address is found, nothing changes, and after two
    runs it is still listed twice. *)
Lemma update_twice_keeps_second_copy :
  listed sample_parse
    (sample_update (sample_update (disk_with doubled)).2).2
    "31337" (address sample_raffle)
  = Some 2%nat
  /\ listed sample_parse
       (sample_update (sample_update (disk_with doubled)).2).2
       "31337" (address sample_raffle)
     <> Some 1%nat.
Proof. split; [vm_compute; reflexivity | vm_compute; discriminate]. Qed.

(** C4. A registry without a duplicate in any of its lists is changed, for
    any chain id and address, into a registry without a duplicate in any of
    its lists, and that is the registry the update stores. *)
Theorem update_keeps_no_duplicates
    (JSON_parse : string -> option registry)
    (JSON_stringify : registry -> string)
    (hre : runtime) (raffle : contract) (n : N) (text : string)
    (r : registry) (d : disk) :
  deployments hre "Raffle" = Some raffle ->
  network_config_chainId hre = Some n ->
  files d !! FRONT_END_ADDRESSES_FILE = Some text ->
  JSON_parse text = Some r ->
  no_duplicates r ->
  exists r' : registry,
    updateContractAddresses JSON_parse JSON_stringify hre d =
    (Return tt,
     {| files := <[FRONT_END_ADDRESSES_FILE := JSON_stringify r']> (files d);
        written := written d ++ [FRONT_END_ADDRESSES_FILE] |})
    /\ no_duplicates r'.
Proof.
  intros Hc Hn Hf Hp Hr.
  exists (record_address (Number_toString n) (address raffle) r).
  split; [by eapply update_runs | by apply no_duplicates_record_address].
Qed.

Lemma no_duplicates_older_local : no_duplicates older_local.
Proof.
  intros k l H. unfold older_local in H.
  apply lookup_singleton_Some in H as [_ <-]. apply NoDup_singleton.
Qed.

Lemma update_keeps_no_duplicates_witness :
  no_duplicates older_local
  /\ exists r' : registry,
       sample_update (disk_with older_local) =
       (Return tt,
        {| files := <[FRONT_END_ADDRESSES_FILE := print_registry r']>
                      (files (disk_with older_local));
           written := written (disk_with older_local)
                      ++ [FRONT_END_ADDRESSES_FILE] |})
       /\ no_duplicates r'.
Proof.
  split; [exact no_duplicates_older_local |].
  apply (update_keeps_no_duplicates sample_parse print_registry sample_runtime
           sample_raffle 31337%N (print_registry older_local) older_local
           (disk_with older_local)).
  - reflexivity.
  - reflexivity.
  - vm_compute; reflexivity.
  - vm_compute; reflexivity.
  - exact no_duplicates_older_local.
Defined.

(** C9. The update changes nothing but the list of the current chain id:
    in the registry it stores, every other key has the list it had, and the
    list of the current chain id is the list read or that list with the
    deployed address behind its last element, so every address that was
    listed is still at its position. *)
Theorem update_frame
    (JSON_parse : string -> option registry)
    (JSON_stringify : registry -> string)
    (hre : runtime) (raffle : contract) (n : N) (text : string)
    (r : registry) (d : disk) :
  deployments hre "Raffle" = Some raffle ->
  network_config_chainId hre = Some n ->
  files d !! FRONT_END_ADDRESSES_FILE = Some text ->
  JSON_parse text = Some r ->
  exists r' : registry,
    updateContractAddresses JSON_parse JSON_stringify hre d =
    (Return tt,
     {| files := <[FRONT_END_ADDRESSES_FILE := JSON_stringify r']> (files d);
        written := written d ++ [FRONT_END_ADDRESSES_FILE] |})
    /\ (forall k : string, k ≠ Number_toString n -> r' !! k = r !! k)
    /\ (forall l : list string,
          r !! Number_toString n = Some l ->
          exists l' : list string,
            r' !! Number_toString n = Some l'
            /\ (l' = l \/ ((address raffle ∉ l) /\ l' = l ++ [address raffle]))
            /\ (forall (i : nat) (x : string),
                  l !! i = Some x -> l' !! i = Some x)).
Proof.
  intros Hc Hn Hf Hp.
  exists (record_address (Number_toString n) (address raffle) r).
  split; [by eapply update_runs |].
  split; [intros k; apply record_address_other |].
  intros l. apply record_address_extends.
Qed.

(** The entry of the other chain stays while the local one is extended. *)
Lemma update_frame_witness :
  exists r' : registry,
    sample_update (disk_with on_goerli) =
    (Return tt,
     {| files := <[FRONT_END_ADDRESSES_FILE := print_registry r']>
                   (files (disk_with on_goerli));
        written := written (disk_with on_goerli)
                   ++ [FRONT_END_ADDRESSES_FILE] |})
    /\ r' !! "5" = on_goerli !! "5".
Proof.
  destruct (update_frame sample_parse print_registry sample_runtime
              sample_raffle 31337%N (print_registry on_goerli) on_goerli
              (disk_with on_goerli))
    as (r' & Hrun & Hother & _).
  - reflexivity.
  - reflexivity.
  - vm_compute; reflexivity.
  - vm_compute; reflexivity.
  - exists r'. split; [exact Hrun |]. apply Hother. vm_compute. discriminate.
Defined.

(** C10. When the registry file is missing, or holds a text that does not
    parse, the update throws and the disk is as it was: no file is changed
    and nothing has been written.  The exported function as a whole leaves a
    missing registry file missing. *)
Theorem update_without_registry
    (JSON_parse : string -> option registry)
    (JSON_stringify : registry -> string)
    (hre : runtime) (d : disk) :
  files d !! FRONT_END_ADDRESSES_FILE = None
  \/ (exists text : string,
        files d !! FRONT_END_ADDRESSES_FILE = Some text
        /\ JSON_parse text = None) ->
  (exists e : error,
     updateContractAddresses JSON_parse JSON_stringify hre d = (Throw e, d))
  /\ (files d !! FRONT_END_ADDRESSES_FILE = None ->
      files (module_exports JSON_parse JSON_stringify hre d).2
        !! FRONT_END_ADDRESSES_FILE = None).
Proof.
  intros H. split; [by apply update_throws |].
  apply module_exports_keeps_missing.
Qed.

(** A file that holds a lone brace. *)
Lemma update_without_registry_witness :
  (exists text : string,
     files garbled_disk !! FRONT_END_ADDRESSES_FILE = Some text
     /\ sample_parse text = None)
  /\ exists e : error, sample_update garbled_disk = (Throw e, garbled_disk).
Proof.
  assert (H : exists text : string,
            files garbled_disk !! FRONT_END_ADDRESSES_FILE = Some text
            /\ sample_parse text = None).
  { exists "{". split; vm_compute; reflexivity. }
  split; [exact H |].
  exact (proj1 (update_without_registry sample_parse print_registry
                  sample_runtime garbled_disk (or_intror H))).
Defined.

(** With the flag unset nothing is read or written. *)
Lemma module_exports_gated
    (JSON_parse : string -> option registry)
    (JSON_stringify : registry -> string) (hre : runtime) (d : disk) :
  truthy (env_UPDATE_FRONT_END hre) = false ->
  module_exports JSON_parse JSON_stringify hre d = (Return tt, d).
Proof. intros H. unfold module_exports. by rewrite H. Qed.

(** *** The update as a whole *)

Lemma paths_differ : FRONT_END_ADDRESSES_FILE ≠ FRONT_END_ABI_FILE.
Proof. discriminate. Qed.

(** The cases of [updateContractAddresses], in the order in which the
    script evaluates: the deployment, the file, its text, the chain id. *)
Lemma update_cases
    (JSON_parse : string -> option registry)
    (JSON_stringify : registry -> string) (hre : runtime) (d : disk) :
  updateContractAddresses JSON_parse JSON_stringify hre d =
  match deployments hre "Raffle" with
  | None => (Throw (DeploymentNotFound "Raffle"), d)
  | Some raffle =>
      match files d !! FRONT_END_ADDRESSES_FILE with
      | None => (Throw (ENOENT FRONT_END_ADDRESSES_FILE), d)
      | Some text =>
          match JSON_parse text with
          | None => (Throw (SyntaxError text), d)
          | Some r =>
              match network_config_chainId hre with
              | None => (Throw (TypeError "Cannot read properties of undefined"), d)
              | Some n =>
                  (Return tt,
                   {| files :=
                        <[FRONT_END_ADDRESSES_FILE :=
                            JSON_stringify
                              (record_address (Number_toString n)
                                 (address raffle) r)]> (files d);
                      written := written d ++ [FRONT_END_ADDRESSES_FILE] |})
              end
          end
      end
  end.
Proof.
  unfold updateContractAddresses, getContract, chainId_toString,
    parse, readFileSync, writeFileSync, mbind, js_bind, bind.
  destruct (deployments hre "Raffle") as [c|]; simpl; [| done].
  destruct (files d !! FRONT_END_ADDRESSES_FILE) as [text|]; simpl; [| done].
  destruct (JSON_parse text) as [r|]; simpl; [| done].
  by destruct (network_config_chainId hre).
Qed.

Lemma updateAbi_cases (hre : runtime) (d : disk) :
  updateAbi hre d =
  match deployments hre "Raffle" with
  | None => (Throw (DeploymentNotFound "Raffle"), d)
  | Some raffle =>
      (Return tt,
       {| files := <[FRONT_END_ABI_FILE := interface_format_json raffle]> (files d);
          written := written d ++ [FRONT_END_ABI_FILE] |})
  end.
Proof.
  unfold updateAbi, getContract, writeFileSync, mbind, js_bind, bind.
  by destruct (deployments hre "Raffle").
Qed.

(** The address update is all or nothing.  Whatever the runtime and the
    disk, it either throws and leaves the disk exactly as it was, or returns
    after one write, of the registry file: no other file is touched and
    nothing is written before the last step. *)
Theorem update_all_or_nothing
    (JSON_parse : string -> option registry)
    (JSON_stringify : registry -> string) (hre : runtime) (d : disk) :
  (exists e : error,
     updateContractAddresses JSON_parse JSON_stringify hre d = (Throw e, d))
  \/ (exists text' : string,
        updateContractAddresses JSON_parse JSON_stringify hre d =
        (Return tt,
         {| files := <[FRONT_END_ADDRESSES_FILE := text']> (files d);
            written := written d ++ [FRONT_END_ADDRESSES_FILE] |})).
Proof.
  rewrite update_cases.
  destruct (deployments hre "Raffle") as [c|]; [| left; by eexists].
  destruct (files d !! FRONT_END_ADDRESSES_FILE) as [text|];
    [| left; by eexists].
  destruct (JSON_parse text) as [r|]; [| left; by eexists].
  destruct (network_config_chainId hre) as [n|]; [| left; by eexists].
  right. by eexists.
Qed.

(** Which error the address update throws: a missing deployment is reported
    before the file is looked at, a missing file before its text is parsed,
    and a network without chain id only after the file has been read and
    parsed; in each case nothing has been written. *)
Theorem update_error_order
    (JSON_parse : string -> option registry)
    (JSON_stringify : registry -> string) (hre : runtime) (d : disk) :
  (deployments hre "Raffle" = None ->
   updateContractAddresses JSON_parse JSON_stringify hre d
   = (Throw (DeploymentNotFound "Raffle"), d))
  /\ (is_Some (deployments hre "Raffle") ->
      files d !! FRONT_END_ADDRESSES_FILE = None ->
      updateContractAddresses JSON_parse JSON_stringify hre d
      = (Throw (ENOENT FRONT_END_ADDRESSES_FILE), d))
  /\ (forall text : string,
        is_Some (deployments hre "Raffle") ->
        files d !! FRONT_END_ADDRESSES_FILE = Some text ->
        JSON_parse text = None ->
        updateContractAddresses JSON_parse JSON_stringify hre d
        = (Throw (SyntaxError text), d))
  /\ (forall text : string,
        is_Some (deployments hre "Raffle") ->
        files d !! FRONT_END_ADDRESSES_FILE = Some text ->
        is_Some (JSON_parse text) ->
        network_config_chainId hre = None ->
        updateContractAddresses JSON_parse JSON_stringify hre d
        = (Throw (TypeError "Cannot read properties of undefined"), d)).
Proof.
  rewrite update_cases. repeat split.
  - by intros ->.
  - intros [c ->] ->. done.
  - intros text [c ->] -> ->. done.
  - intros text [c ->] -> [r ->] ->. done.
Qed.

(** The four failures on samples. *)
Lemma update_error_order_witness :
  updateContractAddresses sample_parse print_registry nothing_deployed empty_disk
  = (Throw (DeploymentNotFound "Raffle"), empty_disk)
  /\ sample_update empty_disk
     = (Throw (ENOENT FRONT_END_ADDRESSES_FILE), empty_disk)
  /\ sample_update garbled_disk = (Throw (SyntaxError "{"), garbled_disk)
  /\ updateContractAddresses sample_parse print_registry no_chain_id
       (disk_with on_goerli)
     = (Throw (TypeError "Cannot read properties of undefined"),
        disk_with on_goerli).
Proof.
  split; [| split; [| split]].
  - apply (proj1 (update_error_order sample_parse print_registry
                    nothing_deployed empty_disk)).
    reflexivity.
  - apply (proj1 (proj2 (update_error_order sample_parse print_registry
                           sample_runtime empty_disk))).
    + by eexists.
    + reflexivity.
  - apply (proj1 (proj2 (proj2 (update_error_order sample_parse print_registry
                                  sample_runtime garbled_disk)))).
    + by eexists.
    + vm_compute; reflexivity.
    + vm_compute; reflexivity.
  - apply (proj2 (proj2 (proj2 (update_error_order sample_parse print_registry
                                  no_chain_id (disk_with on_goerli))))
             (print_registry on_goerli)).
    + by eexists.
    + vm_compute; reflexivity.
    + exists on_goerli. vm_compute; reflexivity.
    + reflexivity.
Defined.

(** [updateAbi] replaces the interface file by the contract's interface
    description.  With the contract deployed and the directory of the two
    files present (one of them exists), it returns after one write; the
    interface file then holds the description whatever it held before and
    whether it existed, every other file is as it was, and a second run
    changes no file.  Without the deployment it throws and writes nothing. *)
Theorem updateAbi_overwrites (hre : runtime) (d : disk) :
  (forall raffle : contract,
     deployments hre "Raffle" = Some raffle ->
     is_Some (files d !! FRONT_END_ADDRESSES_FILE)
     \/ is_Some (files d !! FRONT_END_ABI_FILE) ->
     (updateAbi hre d).1 = Return tt
     /\ files (updateAbi hre d).2 !! FRONT_END_ABI_FILE
        = Some (interface_format_json raffle)
     /\ (forall path : string,
           path ≠ FRONT_END_ABI_FILE ->
           files (updateAbi hre d).2 !! path = files d !! path)
     /\ written (updateAbi hre d).2 = written d ++ [FRONT_END_ABI_FILE]
     /\ files (updateAbi hre (updateAbi hre d).2).2 = files (updateAbi hre d).2)
  /\ (deployments hre "Raffle" = None ->
      updateAbi hre d = (Throw (DeploymentNotFound "Raffle"), d)).
Proof.
  split.
  - intros raffle Hc _. rewrite !updateAbi_cases, Hc; simpl.
    split; [done |]. split; [apply lookup_insert_eq |].
    split; [intros path Hp; by rewrite lookup_insert_ne |].
    split; [done |]. apply insert_insert_eq.
  - intros Hc. by rewrite updateAbi_cases, Hc.
Qed.

(** An older interface file is replaced, the registry file stays. *)
Lemma updateAbi_overwrites_witness :
  files stale_disk !! FRONT_END_ABI_FILE = Some "[{}]"
  /\ files (updateAbi sample_runtime stale_disk).2 !! FRONT_END_ABI_FILE
     = Some (interface_format_json sample_raffle)
  /\ files (updateAbi sample_runtime stale_disk).2 !! FRONT_END_ADDRESSES_FILE
     = files stale_disk !! FRONT_END_ADDRESSES_FILE.
Proof.
  assert (Hold : files stale_disk !! FRONT_END_ABI_FILE = Some "[{}]")
    by (vm_compute; reflexivity).
  split; [exact Hold |].
  destruct (proj1 (updateAbi_overwrites sample_runtime stale_disk)
              sample_raffle eq_refl (or_intror (ex_intro _ _ Hold)))
    as (_ & Habi & Hrest & _).
  split; [exact Habi | apply Hrest, paths_differ].
Defined.

(** *** The exported function *)

(** What the exported function does when the gate is open. *)
Lemma module_exports_open
    (JSON_parse : string -> option registry)
    (JSON_stringify : registry -> string) (hre : runtime) (d : disk) :
  truthy (env_UPDATE_FRONT_END hre) = true ->
  module_exports JSON_parse JSON_stringify hre d =
  (Return tt,
   (updateAbi hre
      (updateContractAddresses JSON_parse JSON_stringify hre d).2).2).
Proof. intros H. unfold module_exports. by rewrite H. Qed.

Lemma truthy_iff (v : option string) :
  truthy v = true <-> exists s : string, v = Some s /\ s ≠ "".
Proof.
  destruct v as [[|c s]|]; simpl; split; try done.
  - intros (s & [= <-] & Hs). done.
  - intros _. by eexists.
  - intros (s & [=] & _).
Qed.

(** The exported function never throws, whatever the updates do: their
    promises are dropped.  It changes no file but the two of the front end,
    and what it writes is, in this order, the registry file if the address
    update returned and the interface file if [updateAbi] returned. *)
Theorem module_exports_returns
    (JSON_parse : string -> option registry)
    (JSON_stringify : registry -> string) (hre : runtime) (d : disk) :
  (module_exports JSON_parse JSON_stringify hre d).1 = Return tt
  /\ (forall path : string,
        path ≠ FRONT_END_ADDRESSES_FILE -> path ≠ FRONT_END_ABI_FILE ->
        files (module_exports JSON_parse JSON_stringify hre d).2 !! path
        = files d !! path)
  /\ exists more : list string,
       written (module_exports JSON_parse JSON_stringify hre d).2
       = written d ++ more
       /\ more `sublist_of` [FRONT_END_ADDRESSES_FILE; FRONT_END_ABI_FILE].
Proof.
  unfold module_exports. destruct (truthy _); simpl.
  2: { split; [done |]. split; [done |]. exists [].
       split; [by rewrite app_nil_r | apply sublist_nil_l]. }
  unfold mbind, js_bind, bind, not_awaited; simpl.
  split; [done |].
  rewrite updateAbi_cases, update_cases.
  destruct (deployments hre "Raffle") as [c|]; simpl.
  2: { split; [done |]. exists []. split; [by rewrite app_nil_r | apply sublist_nil_l]. }
  destruct (files d !! FRONT_END_ADDRESSES_FILE) as [text|]; simpl.
  2: { split; [intros path _ Hp; by rewrite lookup_insert_ne |].
       exists [FRONT_END_ABI_FILE]. split; [done |].
       apply sublist_cons, sublist_skip, sublist_nil_l. }
  destruct (JSON_parse text) as [r|]; simpl.
  2: { split; [intros path _ Hp; by rewrite lookup_insert_ne |].
       exists [FRONT_END_ABI_FILE]. split; [done |].
       apply sublist_cons, sublist_skip, sublist_nil_l. }
  destruct (network_config_chainId hre) as [n|]; simpl.
  2: { split; [intros path _ Hp; by rewrite lookup_insert_ne |].
       exists [FRONT_END_ABI_FILE]. split; [done |].
       apply sublist_cons, sublist_skip, sublist_nil_l. }
  split; [intros path Hp1 Hp2; by rewrite !lookup_insert_ne |].
  exists [FRONT_END_ADDRESSES_FILE; FRONT_END_ABI_FILE].
  split; [by rewrite <- app_assoc | done].
Qed.

(** The gate only asks whether [UPDATE_FRONT_END] is set to a string that
    is not empty.  Unset or empty, the exported function reads and writes
    nothing; set to anything else, whatever the string says, it does what
    it does for "true". *)
Theorem module_exports_gate
    (JSON_parse : string -> option registry)
    (JSON_stringify : registry -> string) (hre : runtime) (d : disk) :
  (env_UPDATE_FRONT_END hre = None \/ env_UPDATE_FRONT_END hre = Some "" ->
   module_exports JSON_parse JSON_stringify hre d = (Return tt, d))
  /\ (forall s : string,
        env_UPDATE_FRONT_END hre = Some s -> s ≠ "" ->
        module_exports JSON_parse JSON_stringify hre d
        = module_exports JSON_parse JSON_stringify
            (with_flag (Some "true") hre) d).
Proof.
  split.
  - intros H. apply module_exports_gated. by destruct H as [-> | ->].
  - intros v Hv Hne.
    rewrite !module_exports_open; [done | done |].
    apply truthy_iff. by exists v.
Qed.

(** The flag set to "false" opens the gate as well. *)
Lemma module_exports_gate_witness :
  module_exports sample_parse print_registry
    (with_flag (Some "false") sample_runtime) stale_disk
  = module_exports sample_parse print_registry
      (with_flag (Some "true") (with_flag (Some "false") sample_runtime))
      stale_disk
  /\ written (module_exports sample_parse print_registry
                (with_flag (Some "false") sample_runtime) stale_disk).2
     = [FRONT_END_ADDRESSES_FILE; FRONT_END_ABI_FILE].
Proof.
  split.
  - apply (proj2 (module_exports_gate sample_parse print_registry
                    (with_flag (Some "false") sample_runtime) stale_disk)
             "false"); [reflexivity | discriminate].
  - vm_compute; reflexivity.
Defined.

(** The two updates are started one after the other and neither is awaited;
    the files they leave do not depend on which of them reaches the disk
    first, in any runtime and on any disk. *)
Theorem updates_commute
    (JSON_parse : string -> option registry)
    (JSON_stringify : registry -> string) (hre : runtime) (d : disk) :
  files (updateAbi hre
           (updateContractAddresses JSON_parse JSON_stringify hre d).2).2
  = files (updateContractAddresses JSON_parse JSON_stringify hre
             (updateAbi hre d).2).2.
Proof.
  rewrite !updateAbi_cases, !update_cases.
  destruct (deployments hre "Raffle") as [c|]; simpl; [| done].
  rewrite (lookup_insert_ne _ _ _ _ (not_eq_sym paths_differ)).
  destruct (files d !! FRONT_END_ADDRESSES_FILE) as [text|]; simpl; [| done].
  destruct (JSON_parse text) as [r|]; simpl; [| done].
  destruct (network_config_chainId hre) as [n|]; simpl; [| done].
  apply insert_insert_ne, not_eq_sym, paths_differ.
Qed.

(** *** Several deployments *)

Lemma Number_toString_inj (n m : N) :
  Number_toString n = Number_toString m -> n = m.
Proof.
  assert (Hnil : forall k : N, N.to_uint k <> Decimal.Nil).
  { intros [|q]; simpl; [discriminate | apply DecimalPos.Unsigned.to_uint_nonnil]. }
  unfold Number_toString. intros H.
  apply DecimalN.Unsigned.to_uint_inj.
  apply (f_equal NilZero.uint_of_string) in H.
  rewrite !NilZero.usu in H by apply Hnil. congruence.
Qed.

(** The list of the chain id after the change, from the list before. *)
Lemma record_address_self (chainId a : string) (r : registry) :
  record_address chainId a r !! chainId =
  Some match r !! chainId with
       | Some l => if Array_includes l a then l else l ++ [a]
       | None => [a]
       end.
Proof.
  unfold record_address. destruct (r !! chainId) as [l|] eqn:E.
  - destruct (Array_includes l a); simpl; [done | apply lookup_insert_eq].
  - apply lookup_insert_eq.
Qed.

Lemma record_address_commute (k1 k2 a1 a2 : string) (r : registry) :
  k1 ≠ k2 ->
  record_address k1 a1 (record_address k2 a2 r)
  = record_address k2 a2 (record_address k1 a1 r).
Proof.
  intros Hk. apply map_eq. intros i.
  destruct (decide (i = k1)) as [-> | H1].
  - rewrite record_address_self, !(record_address_other k2) by done.
    by rewrite record_address_self.
  - destruct (decide (i = k2)) as [-> | H2].
    + rewrite (record_address_other k1) by done.
      rewrite !record_address_self.
      by rewrite (record_address_other k1) by done.
    + by rewrite !record_address_other.
Qed.

(** The keys of the registry after the update are the keys it had and the
    current chain id: no chain id is ever dropped, none but the current one
    is added, and the deployed address is listed under the current one. *)
Theorem update_keys
    (JSON_parse : string -> option registry)
    (JSON_stringify : registry -> string)
    (hre : runtime) (raffle : contract) (n : N) (text : string)
    (r : registry) (d : disk) :
  deployments hre "Raffle" = Some raffle ->
  network_config_chainId hre = Some n ->
  files d !! FRONT_END_ADDRESSES_FILE = Some text ->
  JSON_parse text = Some r ->
  exists r' : registry,
    updateContractAddresses JSON_parse JSON_stringify hre d =
    (Return tt,
     {| files := <[FRONT_END_ADDRESSES_FILE := JSON_stringify r']> (files d);
        written := written d ++ [FRONT_END_ADDRESSES_FILE] |})
    /\ dom r' = {[ Number_toString n ]} ∪ dom r
    /\ exists l : list string,
         r' !! Number_toString n = Some l /\ address raffle ∈ l.
Proof.
  intros Hc Hn Hf Hp.
  exists (record_address (Number_toString n) (address raffle) r).
  split; [by eapply update_runs |].
  split; [| apply record_address_lists].
  unfold record_address.
  destruct (r !! Number_toString n) as [l|] eqn:E.
  - assert (Hin : Number_toString n ∈ dom r) by (apply elem_of_dom; eauto).
    assert (Hdom : {[Number_toString n]} ∪ dom r = dom r).
    { apply subseteq_union_1_L, singleton_subseteq_l, Hin. }
    destruct (Array_includes l (address raffle)); simpl.
    + by rewrite Hdom.
    + apply dom_insert_L.
  - apply dom_insert_L.
Qed.

Lemma update_keys_witness :
  exists r' : registry,
    sample_update (disk_with on_goerli) =
    (Return tt,
     {| files := <[FRONT_END_ADDRESSES_FILE := print_registry r']>
                   (files (disk_with on_goerli));
        written := written (disk_with on_goerli)
                   ++ [FRONT_END_ADDRESSES_FILE] |})
    /\ dom r' = {[ Number_toString 31337 ]} ∪ dom on_goerli.
Proof.
  destruct (update_keys sample_parse print_registry sample_runtime
              sample_raffle 31337%N (print_registry on_goerli) on_goerli
              (disk_with on_goerli))
    as (r' & Hrun & Hdom & _).
  - reflexivity.
  - reflexivity.
  - vm_compute; reflexivity.
  - vm_compute; reflexivity.
  - exists r'. by split.
Defined.

(** Two networks never share a list: different chain ids are different
    keys, and recording a deployment on each of two networks gives the same
    registry in either order. *)
Theorem networks_independent (n1 n2 : N) (a1 a2 : string) (r : registry) :
  n1 ≠ n2 ->
  Number_toString n1 ≠ Number_toString n2
  /\ record_address (Number_toString n1) a1
       (record_address (Number_toString n2) a2 r)
     = record_address (Number_toString n2) a2
         (record_address (Number_toString n1) a1 r).
Proof.
  intros Hn.
  assert (Hk : Number_toString n1 ≠ Number_toString n2).
  { intros H. by apply Hn, Number_toString_inj. }
  split; [exact Hk | by apply record_address_commute].
Qed.

Lemma networks_independent_witness :
  Number_toString goerli ≠ Number_toString localhost
  /\ record_address (Number_toString goerli) later_raffle
       (record_address (Number_toString localhost) (address sample_raffle) ∅)
     = record_address (Number_toString localhost) (address sample_raffle)
         (record_address (Number_toString goerli) later_raffle ∅).
Proof.
  apply (networks_independent goerli localhost later_raffle
           (address sample_raffle) ∅).
  discriminate.
Defined.

(** Successive deployments on one network are listed in the order in which
    they were recorded, behind what was listed before: two different
    addresses, neither of them listed yet, end up last and second to last. *)
Theorem redeployments_in_order (chainId a b : string) (r : registry) :
  a ≠ b ->
  a ∉ default [] (r !! chainId) ->
  b ∉ default [] (r !! chainId) ->
  record_address chainId b (record_address chainId a r) !! chainId
  = Some (default [] (r !! chainId) ++ [a; b]).
Proof.
  intros Hab Ha Hb. rewrite record_address_self, record_address_self.
  destruct (r !! chainId) as [l|] eqn:E.
  - change (default [] (Some l)) with l in *.
    apply Array_includes_false in Ha. rewrite Ha.
    assert (Hb' : Array_includes (l ++ [a]) b = false).
    { apply Array_includes_false. rewrite elem_of_app, list_elem_of_singleton.
      intros [H | H]; [done | by apply Hab]. }
    by rewrite Hb', <- app_assoc.
  - change (default [] (@None (list string))) with (@nil string) in *.
    assert (Hb' : Array_includes [a] b = false).
    { apply Array_includes_false. rewrite list_elem_of_singleton.
      intros H. by apply Hab. }
    by rewrite Hb'.
Qed.

Lemma redeployments_in_order_witness :
  record_address "31337" later_raffle
    (record_address "31337" (address sample_raffle) older_local) !! "31337"
  = Some (default [] (older_local !! "31337")
          ++ [address sample_raffle; later_raffle]).
Proof.
  apply (redeployments_in_order "31337" (address sample_raffle) later_raffle
           older_local).
  - discriminate.
  - vm_compute. intros H. repeat (apply elem_of_cons in H as [H | H]; [discriminate |]).
    by apply elem_of_nil in H.
  - vm_compute. intros H. repeat (apply elem_of_cons in H as [H | H]; [discriminate |]).
    by apply elem_of_nil in H.
Defined.

End FrontEndFacts.

(** ** The Raffle contract *)

Module RaffleFacts.
Import Js Raffle.

Local Open Scope N_scope.

Lemma consistent_deploy (fee itv now : N) (accounts : gmap address N) :
  consistent (deploy fee itv now accounts).
Proof. split; simpl; lia. Qed.

Lemma consistent_next_block (dt : N) (c : chain) :
  consistent c -> consistent (next_block dt c).
Proof. intros [H1 H2]. split; simpl; [lia | done]. Qed.

Lemma consistent_run_call (t : call) (c : chain) :
  consistent c -> consistent (run_call t c).2.
Proof.
  intros [H1 H2]. destruct t as [sender value | | requestId word |]; simpl.
  - unfold enterRaffle.
    destruct (getBalance c sender <? value); [by split |].
    destruct (value <? entranceFee c); [by split |].
    destruct (raffleState c); [| by split].
    split; simpl; [done |].
    rewrite length_app, H2. simpl length. lia.
  - unfold performUpkeep. destruct (checkUpkeep c); by split.
  - unfold fulfillRandomWords.
    destruct (negb _); [by split |].
    destruct (players c !! _); [| by split].
    split; simpl; lia.
  - by split.
Qed.

Lemma consistent_mine (dt : N) (t : call) (c : chain) :
  consistent c -> consistent (mine dt t c).2.
Proof. intros H. apply consistent_run_call, consistent_next_block, H. Qed.

(** Every state the tests can observe is consistent. *)
Lemma reachable_consistent (c : chain) : reachable c -> consistent c.
Proof.
  induction 1 as [fee itv now accounts | c dt t Hc IH Hdt].
  - apply consistent_deploy.
  - by apply consistent_mine.
Qed.

Lemma reachable_replay (blocks : list (N * call)) (c : chain) :
  Forall (fun b => 0 < b.1) blocks -> reachable c -> reachable (replay blocks c).
Proof.
  revert c. induction blocks as [|[dt t] rest IH]; intros c Hb Hc; simpl.
  - done.
  - inversion Hb as [|? ? Hdt Hrest]; subst. apply IH; [done |].
    by apply reachable_mine.
Qed.

(** What a fulfilment that returns has done. *)
Lemma fulfillRandomWords_returns (requestId word : N) (c c' : chain)
    (evs : list event) :
  fulfillRandomWords requestId word c = (Return evs, c') ->
  existsb (N.eqb requestId) (outstanding c) = true
  /\ exists winner : address,
       players c !! N.to_nat (word mod getNumberOfPlayers c) = Some winner
       /\ evs = [WinnerPicked winner]
       /\ players c' = []
       /\ raffleState c' = OPEN
       /\ lastTimestamp c' = block_timestamp c
       /\ recentWinner c' = Some winner
       /\ getBalance c' winner = getBalance c winner + raffle_balance c.
Proof.
  unfold fulfillRandomWords.
  destruct (existsb _ _) eqn:Hid; simpl; [| done].
  destruct (players c !! _) as [winner|] eqn:Hw; [| done].
  intros [= <- <-]. split; [done |]. exists winner.
  repeat (split; [done |]). unfold getBalance at 1; simpl.
  by rewrite lookup_insert_eq.
Qed.

(** C5. [checkUpkeep] answers true exactly when the four conditions hold
    together: the time elapsed since the stored timestamp is at least the
    interval, the raffle is open, the contract's balance is above zero and
    there is at least one participant; it answers false exactly when one of
    them fails. *)
Theorem checkUpkeep_iff (c : chain) :
  (checkUpkeep c = true <->
     interval c <= block_timestamp c - lastTimestamp c
     /\ raffleState c = OPEN
     /\ 0 < raffle_balance c
     /\ 0 < getNumberOfPlayers c)
  /\ (checkUpkeep c = false <->
        ~ interval c <= block_timestamp c - lastTimestamp c
        \/ raffleState c <> OPEN
        \/ ~ 0 < raffle_balance c
        \/ ~ 0 < getNumberOfPlayers c).
Proof.
  assert (Hopen : isOpen c = true <-> raffleState c = OPEN).
  { unfold isOpen. by destruct (raffleState c). }
  assert (Htrue : checkUpkeep c = true <->
                  interval c <= block_timestamp c - lastTimestamp c
                  /\ raffleState c = OPEN
                  /\ 0 < raffle_balance c
                  /\ 0 < getNumberOfPlayers c).
  { unfold checkUpkeep. rewrite !andb_true_iff, Hopen.
    unfold timePassed, hasBalance, hasPlayers.
    rewrite N.leb_le, !N.ltb_lt. tauto. }
  split; [exact Htrue |].
  rewrite <- not_true_iff_false, Htrue.
  destruct (decide (interval c <= block_timestamp c - lastTimestamp c));
    destruct (decide (0 < raffle_balance c));
    destruct (decide (0 < getNumberOfPlayers c));
    destruct (raffleState c); split; intros H;
    try tauto; try (right; left; discriminate); try (left; done);
    destruct H as [H | [H | [H | H]]]; tauto.
Qed.

(** The four [checkUpkeep] tests on the fixture. *)
Example checkUpkeep_tests :
  checkUpkeep RaffleTests.no_eth_sent = false
  /\ (RaffleState_toString (raffleState RaffleTests.raffle_not_open) = "1"
      /\ checkUpkeep RaffleTests.raffle_not_open = false)
  /\ checkUpkeep RaffleTests.too_early = false
  /\ checkUpkeep RaffleTests.all_four_hold = true.
Proof. vm_compute. repeat split. Qed.

(** C6. A fulfilment for a request id that is not outstanding fails with
    "nonexistent request" and changes nothing, in every state of the chain:
    before any request has been issued, while one is outstanding under
    another id, and after it has been fulfilled. *)
Theorem fulfill_nonexistent_request (c : chain) (dt requestId word : N) :
  requestId ∉ outstanding c ->
  mine dt (call_fulfillRandomWords requestId word) c
  = (Throw nonexistent_request, next_block dt c).
Proof.
  intros Hid. unfold mine, run_call, fulfillRandomWords.
  replace (existsb (N.eqb requestId) (outstanding (next_block dt c)))
    with false; [done |].
  symmetry. apply not_true_is_false. intros H.
  apply existsb_exists in H as (r & Hr & E). apply N.eqb_eq in E. subst r.
  apply Hid. by apply list_elem_of_In.
Qed.

(** "can only be called after performUpkeep": no request has been issued
    yet, and the test asks for request 0. *)
Lemma fulfill_nonexistent_request_witness :
  (0 ∉ outstanding RaffleTests.before_fulfill)
  /\ mine 1 (call_fulfillRandomWords 0 0) RaffleTests.before_fulfill
     = (Throw nonexistent_request, next_block 1 RaffleTests.before_fulfill).
Proof.
  assert (H : 0 ∉ outstanding RaffleTests.before_fulfill).
  { vm_compute. apply not_elem_of_nil. }
  split; [exact H |].
  exact (fulfill_nonexistent_request RaffleTests.before_fulfill 1 0 0 H).
Defined.

(** The same test asks for request 1; and once request 1 has been issued,
    another id still fails, as does request 1 itself after its fulfilment. *)
Example fulfill_nonexistent_request_tests :
  (mine 1 (call_fulfillRandomWords 1 0) RaffleTests.before_fulfill).1
  = Throw nonexistent_request
  /\ (mine 1 (call_fulfillRandomWords 2 0) RaffleTests.upkeep_performed.2).1
     = Throw nonexistent_request
  /\ (mine 1 (call_fulfillRandomWords 1 0) (RaffleTests.winner_picked 1).2).1
     = Throw nonexistent_request.
Proof. vm_compute. repeat split. Qed.

(** C7. After a fulfilment that returns, mined in a later block on a chain
    the tests can observe, nobody participates any more, the raffle is open,
    the stored timestamp is strictly later than it was, and the winner, one
    of the participants, owns what they owned before plus the total
    collected, which is the whole balance of the contract: the entry fee
    times the number of participants. *)
Theorem fulfill_pays_winner (c c' : chain) (dt requestId word : N)
    (evs : list event) :
  reachable c ->
  0 < dt ->
  mine dt (call_fulfillRandomWords requestId word) c = (Return evs, c') ->
  getNumberOfPlayers c' = 0
  /\ raffleState c' = OPEN
  /\ lastTimestamp c < lastTimestamp c'
  /\ raffle_balance c = entranceFee c * getNumberOfPlayers c
  /\ exists winner : address,
       recentWinner c' = Some winner
       /\ winner ∈ players c
       /\ getBalance c' winner
          = getBalance c winner + entranceFee c * getNumberOfPlayers c.
Proof.
  intros Hc Hdt Hrun.
  destruct (reachable_consistent c Hc) as [Htime Hpot].
  unfold mine, run_call in Hrun.
  apply fulfillRandomWords_returns in Hrun
    as (_ & winner & Hw & _ & Hplayers & Hstate & Hlast & Hrecent & Hbal).
  simpl in Hw, Hlast, Hbal.
  split; [unfold getNumberOfPlayers; by rewrite Hplayers |].
  split; [done |]. split; [rewrite Hlast; lia |].
  split; [exact Hpot |].
  exists winner. split; [done |]. split.
  - apply list_elem_of_lookup. eauto.
  - rewrite Hbal, Hpot. reflexivity.
Qed.

(** "picks a winner, resets the lottery, and sends money": four
    participants, and the winner receives four fees. *)
Lemma fulfill_pays_winner_witness :
  getNumberOfPlayers (RaffleTests.winner_picked 1).2 = 0
  /\ raffleState (RaffleTests.winner_picked 1).2 = OPEN
  /\ lastTimestamp RaffleTests.upkeep_performed.2
     < lastTimestamp (RaffleTests.winner_picked 1).2
  /\ raffle_balance RaffleTests.upkeep_performed.2
     = RaffleTests.raffleEntranceFee * 4.
Proof.
  assert (Hc : reachable RaffleTests.upkeep_performed.2).
  { apply reachable_mine; [| done].
    repeat (apply reachable_replay;
            [repeat constructor; simpl; lia |]).
    apply reachable_deploy. }
  destruct (fulfill_pays_winner RaffleTests.upkeep_performed.2
              (RaffleTests.winner_picked 1).2 1 1 1 [WinnerPicked "account1"]
              Hc ltac:(lia) ltac:(vm_compute; reflexivity))
    as (H1 & H2 & H3 & H4 & _).
  repeat (split; [assumption |]).
  rewrite H4. vm_compute; reflexivity.
Defined.

(** The assertions of that test on the fixture, when the second account is
    the one picked. *)
Example picks_a_winner_test :
  let before := RaffleTests.upkeep_performed.2 in
  let after := (RaffleTests.winner_picked 1).2 in
  recentWinner after = Some "account1"
  /\ getNumberOfPlayers after = 0
  /\ RaffleState_toString (raffleState after) = "0"
  /\ lastTimestamp RaffleTests.four_entered < lastTimestamp after
  /\ getBalance after "account1"
     = getBalance before "account1"
       + (RaffleTests.raffleEntranceFee * 3 + RaffleTests.raffleEntranceFee).
Proof. vm_compute. repeat split. Qed.

(** The assertions of the staging test: one participant, who wins the fee
    back. *)
Example staging_test (word : N) :
  let before := RaffleTests.staging_entered in
  let after := (RaffleTests.staging_winner_picked word).2 in
  getPlayer after 0 = None
  /\ recentWinner after = Some RaffleTests.deployer
  /\ RaffleState_toString (raffleState after) = "0"
  /\ getBalance after RaffleTests.deployer
     = getBalance before RaffleTests.deployer + RaffleTests.raffleEntranceFee
  /\ lastTimestamp RaffleTests.fixture < lastTimestamp after.
Proof.
  unfold RaffleTests.staging_winner_picked, mine, run_call, fulfillRandomWords.
  replace (word mod getNumberOfPlayers (next_block 12 RaffleTests.staging_entered))
    with 0 by (symmetry; apply N.mod_1_r).
  vm_compute. repeat split.
Qed.

End RaffleFacts.

(** ** The test files *)

Module TestSuiteFacts.
Import TestSuites.

(** On every network exactly one of the two suites is defined: the unit
    suite on the development chains, the staging suite on all others. *)
Theorem one_suite_per_network (developmentChains : list string)
    (network_name : string) :
  (unit_suite developmentChains network_name = defined
   <-> network_name ∈ developmentChains)
  /\ (staging_suite developmentChains network_name = defined
      <-> network_name ∉ developmentChains)
  /\ unit_suite developmentChains network_name
     <> staging_suite developmentChains network_name.
Proof.
  unfold unit_suite, staging_suite.
  destruct (FrontEnd.Array_includes developmentChains network_name) eqn:E; simpl.
  - apply FrontEndFacts.Array_includes_true in E.
    split; [done |]. split; [| done]. split; [done | intros H; by destruct H].
  - apply FrontEndFacts.Array_includes_false in E.
    split; [| done]. split; [done | intros H; by destruct E].
Qed.

End TestSuiteFacts.

Module RaffleRoundFacts.
Import Js Raffle RaffleFacts RaffleRounds.

Local Open Scope N_scope.

(** An entrance that goes through. *)
Lemma mine_enter_open (c : chain) (dt value : N) (sender : address) :
  raffleState c = OPEN ->
  value <= getBalance c sender ->
  entranceFee c <= value ->
  mine dt (call_enterRaffle sender value) c =
  (Return [RaffleEnter sender],
   {| block_timestamp := block_timestamp c + dt;
      balances := <[sender := getBalance c sender - value]> (balances c);
      entranceFee := entranceFee c;
      interval := interval c;
      raffleState := OPEN;
      players := players c ++ [sender];
      lastTimestamp := lastTimestamp c;
      recentWinner := recentWinner c;
      raffle_balance := raffle_balance c + entranceFee c;
      nextRequestId := nextRequestId c;
      outstanding := outstanding c |}).
Proof.
  intros Hopen Hfunds Hfee. unfold mine, run_call, enterRaffle.
  change (getBalance (next_block dt c) sender) with (getBalance c sender).
  cbn [next_block entranceFee raffleState block_timestamp balances interval
       players lastTimestamp recentWinner raffle_balance
       nextRequestId outstanding].
  apply N.ltb_ge in Hfunds. apply N.ltb_ge in Hfee.
  by rewrite Hfunds, Hfee, Hopen.
Qed.

(** An upkeep that is needed. *)
Lemma mine_performUpkeep_needed (c : chain) (dt : N) :
  checkUpkeep (next_block dt c) = true ->
  mine dt call_performUpkeep c =
  (Return [RandomWordsRequested (nextRequestId c);
           RequestedRaffleWinner (nextRequestId c)],
   {| block_timestamp := block_timestamp c + dt;
      balances := balances c;
      entranceFee := entranceFee c;
      interval := interval c;
      raffleState := CALCULATING;
      players := players c;
      lastTimestamp := lastTimestamp c;
      recentWinner := recentWinner c;
      raffle_balance := raffle_balance c;
      nextRequestId := nextRequestId c + 1;
      outstanding := outstanding c ++ [nextRequestId c] |}).
Proof.
  intros H. unfold mine, run_call, performUpkeep. by rewrite H.
Qed.

(** Request ids stay numbered along every chain the tests can observe. *)
Lemma numbered_run_call (t : call) (c : chain) :
  numbered c -> numbered (run_call t c).2.
Proof.
  intros [H1 H2]. destruct t as [sender value | | requestId word |]; simpl.
  - unfold enterRaffle.
    destruct (getBalance c sender <? value); [by split |].
    destruct (value <? entranceFee c); [by split |].
    destruct (raffleState c); by split.
  - unfold performUpkeep. destruct (checkUpkeep c); [| by split].
    split; simpl; [lia |]. apply Forall_app. split.
    + eapply Forall_impl; [exact H2 |]. simpl. intros; lia.
    + constructor; [lia | constructor].
  - unfold fulfillRandomWords.
    destruct (negb _); [by split |].
    destruct (players c !! _); [| by split].
    split; simpl; [done |]. rewrite Forall_forall in H2 |- *.
    intros r Hr. apply list_elem_of_filter in Hr as [_ Hr]. by apply H2.
  - by split.
Qed.

Lemma reachable_numbered (c : chain) : reachable c -> numbered c.
Proof.
  induction 1 as [fee itv now accounts | c dt t Hc IH Hdt].
  - split; simpl; [lia | constructor].
  - unfold mine. apply numbered_run_call. destruct IH as [H1 H2]. by split.
Qed.

Lemma existsb_eqb_last (l : list N) (x : N) :
  existsb (N.eqb x) (l ++ [x]) = true.
Proof.
  rewrite existsb_app. simpl. rewrite N.eqb_refl. by rewrite orb_true_r.
Qed.

(** The tests "updates the raffle state, emits an event, and calls the vrf
    coordinator", "doesn't allow entrance when raffle is calculating" and
    "returns false if raffle isn't open", on any chain the tests can
    observe.  When [performUpkeep] returns, its receipt holds the oracle's
    event and then the raffle's, both with the same request id; that id is
    above 0 and was not outstanding before; the raffle is calculating; until
    the fulfilment no upkeep is needed and a paid entrance is refused because
    the raffle is not open; and the fulfilment of that id returns, whatever
    the random word, with a winner among the participants. *)
Theorem upkeep_then_fulfilment (c c1 : chain) (dt : N) (evs : list event) :
  reachable c ->
  mine dt call_performUpkeep c = (Return evs, c1) ->
  exists requestId : N,
    evs = [RandomWordsRequested requestId; RequestedRaffleWinner requestId]
    /\ 0 < requestId
    /\ (requestId ∉ outstanding c)
    /\ RaffleState_toString (raffleState c1) = "1"
    /\ (forall dt2 : N,
          checkUpkeep (next_block dt2 c1) = false
          /\ (mine dt2 call_performUpkeep c1).1 = Throw Raffle__UpkeepNotNeeded)
    /\ (forall (dt2 value : N) (sender : address),
          value <= getBalance c1 sender -> entranceFee c1 <= value ->
          (mine dt2 (call_enterRaffle sender value) c1).1 = Throw Raffle__NotOpen)
    /\ (forall dt2 word : N,
          exists winner : address,
            winner ∈ players c
            /\ (mine dt2 (call_fulfillRandomWords requestId word) c1).1
               = Return [WinnerPicked winner]).
Proof.
  intros Hc Hrun.
  destruct (reachable_numbered c Hc) as [Hfirst Hissued].
  destruct (checkUpkeep (next_block dt c)) eqn:Hneeded.
  2: { unfold mine, run_call, performUpkeep in Hrun. by rewrite Hneeded in Hrun. }
  rewrite (mine_performUpkeep_needed _ _ Hneeded) in Hrun.
  injection Hrun as <- <-.
  exists (nextRequestId c). split; [done |]. split; [lia |].
  split.
  { intros Hin. rewrite Forall_forall in Hissued.
    specialize (Hissued _ Hin). lia. }
  split; [done |].
  assert (Hplayers : 0 < getNumberOfPlayers c).
  { unfold checkUpkeep in Hneeded. rewrite !andb_true_iff in Hneeded.
    destruct Hneeded as (_ & H). unfold hasPlayers in H.
    by apply N.ltb_lt in H. }
  split.
  { intros dt2.
    assert (H : forall c', raffleState c' = CALCULATING -> checkUpkeep c' = false).
    { intros c' Hs. unfold checkUpkeep, isOpen. rewrite Hs.
      by rewrite andb_false_r. }
    split; [by apply H |].
    unfold mine, run_call, performUpkeep. by rewrite H. }
  split.
  { intros dt2 value sender Hfunds Hfee.
    unfold getBalance in Hfunds. simpl in Hfunds, Hfee.
    apply N.ltb_ge in Hfunds. apply N.ltb_ge in Hfee.
    unfold mine, run_call, enterRaffle, getBalance; simpl.
    by rewrite Hfunds, Hfee. }
  intros dt2 word.
  unfold mine, run_call, fulfillRandomWords; simpl.
  rewrite existsb_eqb_last; simpl.
  unfold getNumberOfPlayers in *; simpl.
  destruct (lookup_lt_is_Some_2 (players c)
              (N.to_nat (word mod N.of_nat (length (players c)))))
    as [winner Hw].
  { assert (word mod N.of_nat (length (players c))
            < N.of_nat (length (players c))) by (apply N.mod_lt; lia).
    lia. }
  exists winner. split; [apply list_elem_of_lookup; eauto |].
  by rewrite Hw.
Qed.

Lemma reachable_four_entered : reachable RaffleTests.four_entered.
Proof.
  repeat (apply reachable_replay; [repeat constructor; simpl; lia |]).
  apply reachable_deploy.
Qed.

(** The upkeep of "picks a winner" on the fixture. *)
Lemma upkeep_then_fulfilment_witness :
  exists requestId : N,
    RaffleTests.upkeep_performed.1
    = Return [RandomWordsRequested requestId; RequestedRaffleWinner requestId]
    /\ 0 < requestId
    /\ RaffleState_toString (raffleState RaffleTests.upkeep_performed.2) = "1".
Proof.
  destruct (upkeep_then_fulfilment RaffleTests.four_entered
              RaffleTests.upkeep_performed.2 1
              [RandomWordsRequested 1; RequestedRaffleWinner 1]
              reachable_four_entered ltac:(vm_compute; reflexivity))
    as (requestId & Hevs & Hpos & _ & Hstate & _).
  exists requestId. split; [| by split].
  rewrite <- Hevs. vm_compute; reflexivity.
Defined.

(** The state after an entrance at the fee and a wait, on any fixture. *)
Lemma entered_then_waited_state (fee itv now : N) (funds : gmap address N)
    (deployer : address) (gap seconds : N) :
  fee <= default 0 (funds !! deployer) ->
  entered_then_waited fee itv now funds deployer gap seconds =
  {| block_timestamp := now + gap + seconds;
     balances := <[deployer := default 0 (funds !! deployer) - fee]> funds;
     entranceFee := fee;
     interval := itv;
     raffleState := OPEN;
     players := [deployer];
     lastTimestamp := now;
     recentWinner := None;
     raffle_balance := 0 + fee;
     nextRequestId := 1;
     outstanding := [] |}.
Proof.
  intros Hfunds. unfold entered_then_waited, enter_at, replay.
  rewrite mine_enter_open; [reflexivity | reflexivity | exact Hfunds |].
  simpl. lia.
Qed.

(** What the loop's entrances do to an open raffle: each account of the
    list, funded and named once, joins behind the participants there were,
    and the contract's balance grows by the fee each time. *)
Lemma replay_entrances (gap fee : N) (entrants : list address) (c : chain) :
  raffleState c = OPEN ->
  entranceFee c = fee ->
  NoDup entrants ->
  Forall (fun a => fee <= getBalance c a) entrants ->
  raffleState (replay (enter_at gap fee <$> entrants) c) = OPEN
  /\ entranceFee (replay (enter_at gap fee <$> entrants) c) = fee
  /\ interval (replay (enter_at gap fee <$> entrants) c) = interval c
  /\ players (replay (enter_at gap fee <$> entrants) c) = players c ++ entrants
  /\ raffle_balance (replay (enter_at gap fee <$> entrants) c)
     = raffle_balance c + fee * N.of_nat (length entrants)
  /\ block_timestamp (replay (enter_at gap fee <$> entrants) c)
     = block_timestamp c + gap * N.of_nat (length entrants)
  /\ lastTimestamp (replay (enter_at gap fee <$> entrants) c) = lastTimestamp c
  /\ nextRequestId (replay (enter_at gap fee <$> entrants) c) = nextRequestId c
  /\ outstanding (replay (enter_at gap fee <$> entrants) c) = outstanding c.
Proof.
  revert c. induction entrants as [|a rest IH]; intros c Hopen Hfee Hnd Hfunds.
  - simpl. rewrite app_nil_r. repeat split; try done; lia.
  - apply NoDup_cons in Hnd as [Ha Hnd].
    apply Forall_cons in Hfunds as [Hfa Hfrest].
    assert (E : replay (enter_at gap fee <$> a :: rest) c
                = replay (enter_at gap fee <$> rest)
                    (mine gap (call_enterRaffle a fee) c).2) by reflexivity.
    rewrite E. rewrite mine_enter_open; [| done | done | lia]. cbn [snd].
    match goal with |- context [replay _ ?c1] => set (c' := c1) end.
    destruct (IH c') as (H1 & H2 & H3 & H4 & H5 & H6 & H7 & H8 & H9).
    + done.
    + done.
    + done.
    + rewrite Forall_forall in Hfrest |- *. intros b Hb.
      unfold getBalance, c'; simpl. rewrite lookup_insert_ne.
      * by apply Hfrest.
      * intros ->. by apply Ha.
    + rewrite H1, H2, H3, H4, H5, H6, H7, H8, H9. unfold c'; simpl.
      rewrite <- app_assoc. simpl length. rewrite Nat2N.inj_succ.
      repeat split; try done; lia.
Qed.

(** "picks a winner, resets the lottery, and sends money" on any fixture.
    With a fee above 0 and signers that are funded and different from each
    other, for any start and number of additional entrances within the list
    of signers, and whatever the seconds from one block to the next: the upkeep
    returns with a request id above 0 in its second event, and for every
    random word the fulfilment of that request returns with a winner among
    the deployer and the loop's accounts; then no participant is left, the
    raffle state is "0", the stored timestamp is later than before the
    upkeep, and a winner other than the deployer, who sends the fulfilment,
    owns [fee * additional + fee] more than after the upkeep. *)
Theorem picks_a_winner_any_fixture (fee itv now gap : N)
    (funds : gmap address N) (deployer : address) (accounts : list address)
    (startingIndex additionalEntrances : nat) (word : N) :
  0 < fee ->
  (startingIndex + additionalEntrances <= length accounts)%nat ->
  NoDup (deployer :: loop_accounts accounts startingIndex additionalEntrances) ->
  Forall (fun a => fee <= default 0 (funds !! a))
    (deployer :: loop_accounts accounts startingIndex additionalEntrances) ->
  let entrants := loop_accounts accounts startingIndex additionalEntrances in
  let before := (upkeep fee itv now gap funds deployer entrants).2 in
  let after := (picked fee itv now gap funds deployer entrants word).2 in
  exists (requestId : N) (winner : address),
    (upkeep fee itv now gap funds deployer entrants).1
    = Return [RandomWordsRequested requestId; RequestedRaffleWinner requestId]
    /\ 0 < requestId
    /\ winner ∈ deployer :: entrants
    /\ (picked fee itv now gap funds deployer entrants word).1
       = Return [WinnerPicked winner]
    /\ recentWinner after = Some winner
    /\ getNumberOfPlayers after = 0
    /\ RaffleState_toString (raffleState after) = "0"
    /\ lastTimestamp (all_entered fee itv now gap funds deployer entrants)
       < lastTimestamp after
    /\ (winner ≠ deployer ->
        getBalance after winner
        = getBalance before winner
          + (fee * N.of_nat additionalEntrances + fee)).
Proof.
  intros Hfee Hlen Hnd Hfunds entrants before after.
  assert (Hn : length entrants = additionalEntrances).
  { unfold entrants, loop_accounts. rewrite length_take, length_drop. lia. }
  apply NoDup_cons in Hnd as [Hdep Hnd]. fold entrants in Hdep, Hnd.
  apply Forall_cons in Hfunds as [Hfd Hfe]. fold entrants in Hfe.
  pose proof (entered_then_waited_state fee itv now funds deployer gap
                (itv + 1) Hfd) as Hstart.
  fold (before_each fee itv now gap funds deployer) in Hstart.
  destruct (replay_entrances gap fee entrants
              (before_each fee itv now gap funds deployer))
    as (H1 & H2 & H3 & H4 & H5 & H6 & H7 & H8 & H9).
  { by rewrite Hstart. }
  { by rewrite Hstart. }
  { done. }
  { rewrite Forall_forall in Hfe |- *. intros a Ha.
    rewrite Hstart. unfold getBalance; simpl. rewrite lookup_insert_ne.
    - by apply Hfe.
    - intros ->. by apply Hdep. }
  fold (all_entered fee itv now gap funds deployer entrants)
    in H1, H2, H3, H4, H5, H6, H7, H8, H9.
  rewrite Hstart in H3, H4, H5, H6, H7, H8, H9.
  simpl in H3, H4, H5, H6, H7, H8, H9.
  rewrite Hn in H5, H6.
  set (c := all_entered fee itv now gap funds deployer entrants) in *.
  assert (Hneeded : checkUpkeep (next_block gap c) = true).
  { unfold checkUpkeep, timePassed, isOpen, hasBalance, hasPlayers,
      getNumberOfPlayers; simpl.
    rewrite H1, H3, H4, H5, H6, H7; simpl.
    rewrite !andb_true_iff, N.leb_le, !N.ltb_lt. lia. }
  assert (Hup : upkeep fee itv now gap funds deployer entrants
                = mine gap call_performUpkeep c) by reflexivity.
  rewrite (mine_performUpkeep_needed _ _ Hneeded) in Hup.
  unfold after, before, picked. rewrite Hup, H8, H9.
  cbn [fst snd RaffleTests.requestId_of].
  unfold mine, run_call, fulfillRandomWords, getNumberOfPlayers; simpl.
  rewrite H4; simpl. rewrite Hn.
  destruct (lookup_lt_is_Some_2 (deployer :: entrants)
              (N.to_nat (word mod N.of_nat (S additionalEntrances))))
    as [winner Hw].
  { simpl. rewrite Hn.
    assert (word mod N.of_nat (S additionalEntrances)
            < N.of_nat (S additionalEntrances)) by (apply N.mod_lt; lia).
    lia. }
  exists 1, winner. rewrite Hw; simpl.
  split; [done |]. split; [lia |].
  split; [apply list_elem_of_lookup; eauto |].
  split; [done |]. split; [done |]. split; [done |]. split; [done |].
  split; [rewrite H7, H6; lia |].
  intros _. unfold getBalance; simpl.
  rewrite lookup_insert_eq; simpl. rewrite H5. lia.
Qed.

(** The test's own numbers: signers 1 to 3 join the deployer, blocks one
    second apart, and the word 1. *)
Lemma picks_a_winner_any_fixture_witness :
  (1 + 3 <= length RaffleTests.accounts)%nat
  /\ loop_accounts RaffleTests.accounts 1 3 = ["account1"; "account2"; "account3"]
  /\ exists winner : address,
       (picked RaffleTests.raffleEntranceFee RaffleTests.sample_interval
          1700000000 1 RaffleTests.funds RaffleTests.deployer
          (loop_accounts RaffleTests.accounts 1 3) 1).1
       = Return [WinnerPicked winner]
       /\ (winner ≠ RaffleTests.deployer ->
           getBalance
             (picked RaffleTests.raffleEntranceFee RaffleTests.sample_interval
                1700000000 1 RaffleTests.funds RaffleTests.deployer
                (loop_accounts RaffleTests.accounts 1 3) 1).2 winner
           = getBalance
               (upkeep RaffleTests.raffleEntranceFee RaffleTests.sample_interval
                  1700000000 1 RaffleTests.funds RaffleTests.deployer
                  (loop_accounts RaffleTests.accounts 1 3)).2 winner
             + (RaffleTests.raffleEntranceFee * N.of_nat 3
                + RaffleTests.raffleEntranceFee)).
Proof.
  split; [simpl; lia |]. split; [reflexivity |].
  destruct (picks_a_winner_any_fixture RaffleTests.raffleEntranceFee
              RaffleTests.sample_interval 1700000000 1 RaffleTests.funds
              RaffleTests.deployer RaffleTests.accounts 1 3 1)
    as (requestId & winner & _ & _ & _ & Hpicked & _ & _ & _ & _ & Hbal).
  - reflexivity.
  - simpl; lia.
  - compute_done.
  - compute_done.
  - exists winner. split; [exact Hpicked | exact Hbal].
Defined.

End RaffleRoundFacts.
